(** * riscv-dv [scripts/lib.py]: command executors and regression-list resolver

    A shallow embedding of [run_cmd], [run_parallel_cmd], [read_yaml] and
    [process_regression_list].  Python's side effects (logging calls,
    subprocess handling, [sys.exit], exceptions, the caller's list object)
    are made explicit in a state-and-outcome monad over a [world].

    - A child process is described by what its one [communicate] call
      observes and, when the time is up, by what the poll of [kill] finds,
      so no clock is modelled.
    - [safe_load] builds a document anew at every call and the resolver
      writes only to the entries of the document it has just loaded, always
      the same value for the same node, so entries are values here.
    - The recursion of the resolver is not bounded in the source; [fuel] is
      the room on the interpreter's stack, in nested calls of the resolver,
      and a call that finds no room raises [RecursionError]. *)

From Stdlib Require Import ZArith String Ascii List Bool Lia.
From stdpp Require Import base option list gmap strings.

Local Open Scope Z_scope.
Local Open Scope string_scope.
Local Open Scope list_scope.

(** ** Values, exceptions, outcomes *)

Definition RET_SUCCESS : Z := 0.
Definition RET_FAIL : Z := 1.
Definition RET_FATAL : Z := -1.

(** The Python values that occur in a test list and in log arguments:
    strings, integers and [None].  The other scalars of YAML (floats,
    booleans, dates) are not represented: the properties that say which
    entries are appended take the counts to be integers, as the lists of
    the repository declare them. *)
Inductive value :=
| VStr (s : string)
| VInt (z : Z)
| VNone.

(** The exception classes that can travel through the functions below. *)
Inductive exn :=
| OSError
| FileNotFoundError
| ValueError
| CalledProcessError
| TimeoutExpired
| UnboundLocalError (var : string)
| KeyError (key : string)
| IndexError
| TypeError
| RecursionError.

(** [except subprocess.CalledProcessError] and [except subprocess.TimeoutExpired]
    catch exactly these classes (neither has a subclass here, and neither is
    a subclass of the other). *)
Definition is_CalledProcessError (e : exn) : bool :=
  match e with CalledProcessError => true | _ => false end.

Definition is_TimeoutExpired (e : exn) : bool :=
  match e with TimeoutExpired => true | _ => false end.

(** How a call ends: it returns, [sys.exit(code)] unwinds the interpreter,
    an exception propagates to the caller, or the call never comes back (a
    wait without a time limit on a child that does not end). *)
Inductive outcome (A : Type) :=
| Returns (a : A)
| SysExit (code : Z)
| Raises (e : exn)
| Unfinished.

Arguments Returns {A} a.
Arguments SysExit {A} code.
Arguments Raises {A} e.
Arguments Unfinished {A}.

(** ** The world *)

Inductive level := DEBUG | INFO | WARNING | ERROR.

(** Observable actions, in program order.  A logging call is kept as its
    format string and arguments. *)
Inductive event :=
| EvLog (lvl : level) (fmt : string) (args : list value)
| EvPopen (shell_cmd : string) (executable : string)
| EvKill (pid : nat)
| EvSystem (cmd : string).

(** What the one [communicate] call on a child observes: the child is over
    within the time allowed, with its merged output and return code; or the
    time is up and the child is still running; or the time is up because the
    pipe is still open (a background job of the command holds it) while the
    child itself is over, with a return code that nobody has read yet. *)
Inductive wait_result :=
| Completes (output : string) (rc : Z)
| Hangs
| Lingers (rc : Z).

(** What a [subprocess.Popen] call does: the shell starts, or the
    constructor raises. *)
Inductive launch_result :=
| Starts (w : wait_result)
| FailsWith (e : exn).

(** A [Popen] object.  [returncode] is [None] until [communicate] reaps the
    child or the poll of [kill] finds it over; [killed] records that the
    signal was sent. *)
Record proc := {
  behaviour : wait_result;
  returncode : option Z;
  killed : bool
}.

(** A [Popen] object right after its launch. *)
Definition fresh (b : wait_result) : proc :=
  {| behaviour := b; returncode := None; killed := false |}.

(** A node of a test list: a YAML mapping. *)
Abbreviation entry := (gmap string value).

Record world := {
  trace : list event;          (* actions so far, oldest first *)
  procs : list proc;           (* Popen objects, indexed by handle *)
  spawned : nat;               (* number of Popen calls so far *)
  matched_list : list entry    (* the caller's accumulator object *)
}.

Definition emit (ev : event) (w : world) : world :=
  {| trace := trace w ++ [ev]; procs := procs w;
     spawned := spawned w; matched_list := matched_list w |}.

Definition set_procs (ps : list proc) (w : world) : world :=
  {| trace := trace w; procs := ps;
     spawned := spawned w; matched_list := matched_list w |}.

Definition count_spawn (w : world) : world :=
  {| trace := trace w; procs := procs w;
     spawned := S (spawned w); matched_list := matched_list w |}.

Definition push_matched (e : entry) (w : world) : world :=
  {| trace := trace w; procs := procs w;
     spawned := spawned w; matched_list := matched_list w ++ [e] |}.

Definition init_world : world :=
  {| trace := []; procs := []; spawned := 0%nat; matched_list := [] |}.

(** ** The monad *)

Definition M (A : Type) : Type := world -> outcome A * world.

Definition ret {A} (a : A) : M A := fun w => (Returns a, w).

Definition bind {A B} (m : M A) (k : A -> M B) : M B :=
  fun w =>
    match m w with
    | (Returns a, w') => k a w'
    | (SysExit c, w') => (SysExit c, w')
    | (Raises e, w') => (Raises e, w')
    | (Unfinished, w') => (Unfinished, w')
    end.

Declare Scope py_scope.
Delimit Scope py_scope with py.
Notation "x <- c ;; k" := (bind c (fun x => k))
  (at level 100, c at next level, right associativity) : py_scope.
Notation "c ;; k" := (bind c (fun _ => k))
  (at level 100, right associativity) : py_scope.
Local Open Scope py_scope.

Definition raise {A} (e : exn) : M A := fun w => (Raises e, w).
Definition sys_exit {A} (code : Z) : M A := fun w => (SysExit code, w).

(** [try: body  except <class>: handler]: [handler e] is [Some h] when the
    except clause matches [e]. [SysExit] is not caught by a clause that
    names an [Exception] subclass. *)
Definition try_except {A} (body : M A) (handler : exn -> option (M A)) : M A :=
  fun w =>
    match body w with
    | (Raises e, w') =>
        match handler e with
        | Some h => h w'
        | None => (Raises e, w')
        end
    | r => r
    end.

(** Reading a local variable: [None] is a name that was never assigned. *)
Definition load_local {A} (name : string) (v : option A) : M A :=
  match v with
  | Some a => ret a
  | None => raise (UnboundLocalError name)
  end.

(** [l[i]] on a Python list. *)
Definition index {A} (l : list A) (i : nat) : M A :=
  match l !! i with
  | Some a => ret a
  | None => raise IndexError
  end.

(** [for x in l: acc = body acc x], left to right, stopping at the first
    exit or exception. *)
Fixpoint for_each {A S} (l : list A) (body : S -> A -> M S) (s : S) : M S :=
  match l with
  | [] => ret s
  | x :: l' => s' <- body s x ;; for_each l' body s'
  end.

Definition log (lvl : level) (fmt : string) (args : list value) : M unit :=
  fun w => (Returns tt, emit (EvLog lvl fmt args) w).

Definition logging_debug := log DEBUG.
Definition logging_info := log INFO.
Definition logging_error := log ERROR.

Definition os_system (cmd : string) : M unit :=
  fun w => (Returns tt, emit (EvSystem cmd) w).

(** Python truthiness of an [int]. *)
Definition truthy (z : Z) : bool := negb (z =? 0)%Z.

(** ** subprocess *)

Section Executors.

(** [spawn n] is what the [n]-th [Popen] call of the run does. *)
Variable spawn : nat -> launch_result.

Definition Popen (shell_cmd executable : string) : M nat :=
  fun w =>
    let w1 := count_spawn (emit (EvPopen shell_cmd executable) w) in
    match spawn (spawned w) with
    | Starts b =>
        (Returns (length (procs w)), set_procs (procs w ++ [fresh b]) w1)
    | FailsWith e => (Raises e, w1)
    end.

(** [ps.communicate(timeout=t)[0]]; [t = None] waits without limit. *)
Definition communicate (ps : nat) (timeout : option Z) : M string :=
  fun w =>
    match procs w !! ps with
    | None => (Raises IndexError, w)
    | Some p =>
        match behaviour p with
        | Completes out rc =>
            (Returns out,
             set_procs (<[ps := {| behaviour := behaviour p;
                                   returncode := Some rc;
                                   killed := killed p |}]> (procs w)) w)
        | Hangs | Lingers _ =>
            match timeout with
            | Some _ => (Raises TimeoutExpired, w)
            | None => (Unfinished, w)
            end
        end
    end.

(** What [ps.poll()] finds: the return code already stored, the code of a
    child that is over and was not reaped yet, or [None] for a child that is
    running.  A child nobody has waited on is taken to be running unless its
    [communicate] would find it over behind an open pipe. *)
Definition polled (p : proc) : option Z :=
  match returncode p with
  | Some rc => Some rc
  | None =>
      match behaviour p with
      | Lingers rc => Some rc
      | _ => None
      end
  end.

(** [ps.kill()], as in CPython 3.9 and later: [send_signal] polls first; a
    child found over gets its return code stored and no signal, a running
    child gets the signal and is not reaped. *)
Definition kill (ps : nat) : M unit :=
  fun w =>
    match procs w !! ps with
    | None => (Raises IndexError, w)
    | Some p =>
        match polled p with
        | Some rc =>
            (Returns tt,
             set_procs (<[ps := {| behaviour := behaviour p;
                                   returncode := Some rc;
                                   killed := killed p |}]> (procs w)) w)
        | None =>
            (Returns tt,
             set_procs (<[ps := {| behaviour := behaviour p;
                                   returncode := None;
                                   killed := true |}]> (procs w))
                       (emit (EvKill ps) w))
        end
    end.

Definition get_returncode (ps : nat) : M (option Z) :=
  fun w =>
    match procs w !! ps with
    | None => (Raises IndexError, w)
    | Some p => (Returns (returncode p), w)
    end.

(** [rc and check_return_code and rc > 0] as a condition. *)
Definition rc_is_error (rc : option Z) (check_return_code : bool) : bool :=
  match rc with
  | None => false
  | Some r => truthy r && check_return_code && (0 <? r)%Z
  end.

Definition rc_arg (rc : option Z) : value :=
  match rc with Some r => VInt r | None => VNone end.

Definition run_cmd (cmd : string) (timeout_s : Z) (exit_on_error : Z)
    (check_return_code : bool) : M string :=
  logging_debug cmd [] ;;
  ps <- try_except
          (Popen ("exec " +:+ cmd) "/bin/bash")
          (fun e =>
             if is_CalledProcessError e then
               Some (ps <- load_local "ps" None ;;
                     out <- communicate ps None ;;
                     logging_error out [] ;;
                     sys_exit RET_FAIL)
             else None) ;;
  output <- try_except
              (communicate ps (Some timeout_s))
              (fun e =>
                 if is_TimeoutExpired e then
                   Some (logging_error "Timeout[%ds]: %s"
                                       [VInt timeout_s; VStr cmd] ;;
                         kill ps ;;
                         ret "")
                 else None) ;;
  rc <- get_returncode ps ;;
  (if rc_is_error rc check_return_code then
     logging_info output [] ;;
     logging_error "ERROR return code: %d/%d, cmd:%s"
                   [VInt (Z.b2z check_return_code); rc_arg rc; VStr cmd] ;;
     if truthy exit_on_error then sys_exit RET_FAIL else ret tt
   else ret tt) ;;
  logging_debug output [] ;;
  ret output.

(** The first loop of [run_parallel_cmd]: launch every command.  The loop
    carries the locals [children] and, once assigned, the loop variable
    [cmd], which the second loop still reads. *)
Definition launch (locals : list nat * option string) (cmd : string)
    : M (list nat * option string) :=
  ps <- Popen ("exec " +:+ cmd) "/bin/bash" ;;
  ret (locals.1 ++ [ps], Some cmd).

Definition launch_all (cmd_list : list string) : M (list nat * option string) :=
  for_each cmd_list launch ([], None).

(** One round of the second loop; [output] is the local variable of that
    name as the previous rounds left it. *)
Definition wait_child (cmd_list : list string) (children : list nat)
    (cmd : option string) (timeout_s : Z) (exit_on_error : Z)
    (check_return_code : bool) (output : option string) (i : nat)
    : M (option string) :=
  logging_info "Command progress: %d/%d"
               [VInt (Z.of_nat i); VInt (Z.of_nat (length children))] ;;
  c <- index cmd_list i ;;
  logging_debug "Waiting for command: %s" [VStr c] ;;
  output <- try_except
              (child <- index children i ;;
               out <- communicate child (Some timeout_s) ;;
               ret (Some out))
              (fun e =>
                 if is_TimeoutExpired e then
                   Some (last_cmd <- load_local "cmd" cmd ;;
                         logging_error "Timeout[%ds]: %s"
                                       [VInt timeout_s; VStr last_cmd] ;;
                         child <- index children i ;;
                         kill child ;;
                         ret output)
                 else None) ;;
  child <- index children i ;;
  rc <- get_returncode child ;;
  (if rc_is_error rc check_return_code then
     out <- load_local "output" output ;;
     logging_info out [] ;;
     last_cmd <- load_local "cmd" cmd ;;
     logging_error "ERROR return code: %d, cmd:%s"
                   [rc_arg rc; VStr last_cmd] ;;
     if truthy exit_on_error then sys_exit RET_FAIL else ret tt
   else ret tt) ;;
  os_system "stty sane" ;;
  out <- load_local "output" output ;;
  logging_debug out [] ;;
  ret output.

Definition wait_all (cmd_list : list string) (children : list nat)
    (cmd : option string) (timeout_s : Z) (exit_on_error : Z)
    (check_return_code : bool) : M (option string) :=
  for_each (seq 0 (length children))
    (wait_child cmd_list children cmd timeout_s exit_on_error
                check_return_code)
    None.

Definition run_parallel_cmd (cmd_list : list string) (timeout_s : Z)
    (exit_on_error : Z) (check_return_code : bool) : M unit :=
  locals <- launch_all cmd_list ;;
  let '(children, cmd) := locals in
  wait_all cmd_list children cmd timeout_s exit_on_error check_return_code ;;
  ret tt.

End Executors.

(** ** Strings *)

(** [s.split(sep)] for a one-character separator: the pieces between the
    occurrences of [sep], empty pieces included. *)
Fixpoint split (sep : ascii) (s : string) : list string :=
  match s with
  | EmptyString => [""]
  | String c s' =>
      let pieces := split sep s' in
      if Ascii.eqb c sep then "" :: pieces
      else match pieces with
           | piece :: rest => String c piece :: rest
           | [] => [String c ""]
           end
  end.

(** Replacing, left to right, every occurrence of the literal [pat] in [s]
    by [repl]; [skip] characters of a match just replaced are still to be
    dropped. *)
Fixpoint replace_all (pat repl : string) (skip : nat) (s : string) : string :=
  match s with
  | EmptyString => ""
  | String c s' =>
      match skip with
      | S k => replace_all pat repl k s'
      | O =>
          if String.prefix pat s
          then repl +:+ replace_all pat repl (String.length pat - 1) s'
          else String c (replace_all pat repl 0 s')
      end
  end.

(** [re.sub(pattern, repl, s)] for a pattern without regular-expression
    operators, such as ['<riscv_dv_root>'], and a replacement without a
    backslash, such as a POSIX directory path: [re.sub] reads [repl] as a
    template, and only without a backslash is the template the string
    itself.  The properties that depend on the substituted path assume such
    a replacement ([plain_repl]). *)
Definition re_sub (pattern repl s : string) : string :=
  replace_all pattern repl 0 s.

(** ** Test lists *)

(** What is at a path: nothing, a file that is not valid YAML (with the
    parser's message), or a document, which is a sequence of mappings. *)
Inductive file :=
| NoSuchFile
| Malformed (exc : string)
| Document (nodes : list entry).

(** [d[key]] on a dict. *)
Definition getitem (d : entry) (key : string) : M value :=
  match d !! key with
  | Some v => ret v
  | None => raise (KeyError key)
  end.

(** [v > 0]: only numbers compare with [0]. *)
Definition gt_zero (v : value) : M bool :=
  match v with
  | VInt z => ret (0 <? z)%Z
  | _ => raise TypeError
  end.

(** The string argument of [re.sub]. *)
Definition as_str (v : value) : M string :=
  match v with
  | VStr s => ret s
  | _ => raise TypeError
  end.

(** [v in l] for a list of strings [l]. *)
Definition value_in (v : value) (l : list string) : bool :=
  match v with
  | VStr s => bool_decide (s ∈ l)
  | _ => false
  end.

(** [matched_list.append(entry)] *)
Definition append (e : entry) : M unit :=
  fun w => (Returns tt, push_matched e w).

Section Resolver.

Variable fs : string -> file.

Definition read_yaml (yaml_file : string) : M (list entry) :=
  match fs yaml_file with
  | NoSuchFile => raise FileNotFoundError
  | Malformed exc => logging_error exc [] ;; sys_exit RET_FAIL
  | Document yaml_data => ret yaml_data
  end.

(** The [else] branch of the loop body: a node without an ['import'] key. *)
Definition process_test (test : string) (mult_test : list string)
    (iterations : Z) (entry : entry) : M unit :=
  name <- getitem entry "test" ;;
  if value_in name mult_test || String.eqb test "all" then
    override <- (if (0 <? iterations)%Z
                 then (declared <- getitem entry "iterations" ;;
                       gt_zero declared)
                 else ret false) ;;
    let entry :=
      if override : bool then <["iterations" := VInt iterations]> entry
      else entry in
    count <- getitem entry "iterations" ;;
    positive <- gt_zero count ;;
    if positive : bool then
      name <- getitem entry "test" ;;
      count <- getitem entry "iterations" ;;
      logging_info "Found matched tests: %s, iterations:%0d" [name; count] ;;
      append entry
    else ret tt
  else ret tt.

(** One round of the loop over the document; [recurse] is the recursive
    call on the imported list. *)
Definition process_entry (recurse : string -> M unit) (test : string)
    (mult_test : list string) (iterations : Z) (riscv_dv_root : string)
    (entry : entry) : M unit :=
  if bool_decide (is_Some (entry !! "import")) then
    path <- getitem entry "import" ;;
    path <- as_str path ;;
    let sub_list := re_sub "<riscv_dv_root>" riscv_dv_root path in
    recurse sub_list
  else
    process_test test mult_test iterations entry.

(** The source recurses on every import without a bound of its own; the
    interpreter raises [RecursionError] when its stack is full.  [fuel] is
    the room left on that stack, counted in nested calls of this function. *)
Fixpoint process_regression_list (fuel : nat) (testlist test : string)
    (iterations : Z) (riscv_dv_root : string) : M unit :=
  match fuel with
  | O => raise RecursionError
  | S fuel' =>
      logging_info "Processing regression test list : %s, test: %s"
                   [VStr testlist; VStr test] ;;
      yaml_data <- read_yaml testlist ;;
      let mult_test := split "," test in
      for_each yaml_data
        (fun _ entry =>
           process_entry
             (fun sub_list =>
                process_regression_list fuel' sub_list test iterations
                                        riscv_dv_root)
             test mult_test iterations riscv_dv_root entry)
        tt
  end.

End Resolver.

(** ** Environment, seed and logging set-up *)

Definition logging_warning := log WARNING.

Section Environment.

(** [os.environ] *)
Variable environ : gmap string string.

Definition get_env_var (var : string) : M string :=
  try_except
    (match environ !! var with
     | Some val => ret val
     | None => raise (KeyError var)
     end)
    (fun e =>
       match e with
       | KeyError _ =>
           Some (logging_warning "Please set the environment variable %0s"
                                 [VStr var] ;;
                 sys_exit RET_FAIL)
       | _ => None
       end).

End Environment.

(** [getrandbits32] is the value [random.getrandbits(32)] draws when it is
    called. *)
Definition get_seed (getrandbits32 : Z) (seed : Z) : Z :=
  if (0 <=? seed)%Z then seed else getrandbits32.

(** The keyword arguments [setup_logging] passes to [logging.basicConfig]. *)
Record basic_config := {
  format : string;
  datefmt : string;
  threshold : level
}.

Definition setup_logging (verbose : bool) : basic_config :=
  if verbose then
    {| format := "%(asctime)s %(filename)s:%(lineno)-5s %(levelname)-8s %(message)s";
       datefmt := "%a, %d %b %Y %H:%M:%S";
       threshold := DEBUG |}
  else
    {| format := "%(asctime)s %(levelname)-8s %(message)s";
       datefmt := "%a, %d %b %Y %H:%M:%S";
       threshold := INFO |}.

(** * Vocabulary of the properties *)

(** The commands handed to [Popen] in a trace, with the interpreter. *)
Definition shell_cmds (t : list event) : list (string * string) :=
  omap (fun ev => match ev with
                  | EvPopen c exe => Some (c, exe)
                  | _ => None
                  end) t.

(** A computation that launches nothing. *)
Definition no_spawn {A} (m : M A) : Prop :=
  forall w, shell_cmds (trace (m w).2) = shell_cmds (trace w).

(** The number of [Popen] calls [launch_all] makes: one per command, up to
    and including the first whose launch raises. *)
Fixpoint attempts (spawn : nat -> launch_result) (n : nat)
    (cmds : list string) : nat :=
  match cmds with
  | [] => 0
  | _ :: rest =>
      match spawn n with
      | Starts _ => S (attempts spawn (S n) rest)
      | FailsWith _ => 1
      end
  end.

(** The iteration count of an entry is a positive integer. *)
Definition positive_count (e : entry) : bool :=
  match e !! "iterations" with
  | Some (VInt k) => (0 <? k)%Z
  | _ => false
  end.

(** The override step as the specification words it: a positive override
    replaces a positive declared count, and nothing else changes. *)
Definition apply_override (n : Z) (e : entry) : entry :=
  if (0 <? n)%Z && positive_count e then <["iterations" := VInt n]> e else e.

(** The entries of a document that are left once the override is applied,
    in document order. *)
Definition resolved_all (n : Z) (doc : list entry) : list entry :=
  List.filter positive_count (apply_override n <$> doc).

(** A test node: no ['import'] key, a ['test'] key, and an integer under
    ['iterations']. *)
Definition is_test_node (e : entry) : bool :=
  match e !! "import", e !! "test", e !! "iterations" with
  | None, Some _, Some (VInt _) => true
  | _, _, _ => false
  end.

(** The selection of [process_test]. *)
Definition selected (test : string) (e : entry) : bool :=
  match e !! "test" with
  | Some name => value_in name (split "," test) || String.eqb test "all"
  | None => false
  end.

(** [m] ends normally and extends the accumulator by exactly [new]. *)
Definition resolves (m : M unit) (new : list entry) : Prop :=
  forall w, exists w',
    m w = (Returns tt, w') /\ matched_list w' = matched_list w ++ new.

(** [m] leaves the accumulator as it was, followed by entries that all
    satisfy [P], however it ends. *)
Definition appends (P : entry -> Prop) {A} (m : M A) : Prop :=
  forall w, exists new,
    matched_list (m w).2 = matched_list w ++ new /\ Forall P new.



(** A [Popen] object once its wait is over: reaped with its return code
    by [communicate], killed and not reaped, or found over by the poll of
    [kill]. *)
Definition settle (b : wait_result) : proc :=
  match b with
  | Completes out rc =>
      {| behaviour := b; returncode := Some rc; killed := false |}
  | Hangs => {| behaviour := b; returncode := None; killed := true |}
  | Lingers rc =>
      {| behaviour := b; returncode := Some rc; killed := false |}
  end.

(** [m] never exits with a code other than [RET_FAIL]. *)
Definition exit_fail {A} (m : M A) : Prop :=
  forall w c, (m w).1 = SysExit c -> c = RET_FAIL.

(** The numeric value of a logging level. *)
Definition levelno (l : level) : Z :=
  match l with
  | DEBUG => 10
  | INFO => 20
  | WARNING => 30
  | ERROR => 40
  end.

(** The logging calls of a trace that the root logger lets through under a
    configuration: those at or above its level. *)
Definition emitted (cfg : basic_config) (t : list event) : list event :=
  List.filter
    (fun ev => match ev with
               | EvLog l _ _ => (levelno (threshold cfg) <=? levelno l)%Z
               | _ => false
               end) t.

(** [m] ends with the outcome [o] and extends the accumulator by exactly
    [new]. *)
Definition ends {A} (m : M A) (o : outcome A) (new : list entry) : Prop :=
  forall w, exists w',
    m w = (o, w') /\ matched_list w' = matched_list w ++ new.

(** An outcome other than a normal return. *)
Definition stops {A} (o : outcome A) : bool :=
  match o with
  | Returns _ => false
  | _ => true
  end.

(** How [read_yaml] ends on a path that holds no document. *)
Definition load_failure (f : file) : option (outcome unit) :=
  match f with
  | NoSuchFile => Some (Raises FileNotFoundError)
  | Malformed _ => Some (SysExit RET_FAIL)
  | Document _ => None
  end.

(** The character [c] does not occur in [s]. *)
Fixpoint free_of (c : ascii) (s : string) : bool :=
  match s with
  | EmptyString => true
  | String c' s' => negb (Ascii.eqb c' c) && free_of c s'
  end.

(** A replacement that [re.sub] inserts as it stands: it holds no backslash
    (character 92), which would start an escape of the template. *)
Definition plain_repl (repl : string) : bool := free_of "092" repl.

(** The name of the entry is one of the comma-separated pieces of [test]. *)
Definition named_in (test : string) (e : entry) : bool :=
  match e !! "test" with
  | Some name => value_in name (split "," test)
  | None => false
  end.

(** The name of the entry is the string [t]. *)
Definition has_name (t : string) (e : entry) : bool :=
  match e !! "test" with
  | Some (VStr s) => String.eqb s t
  | _ => false
  end.

(** What a list of test nodes contributes under a selection and an
    override. *)
Definition resolved (test : string) (n : Z) (doc : list entry) : list entry :=
  List.filter (fun e => selected test e && positive_count e)
              (apply_override n <$> doc).

(** * Sample inputs *)

Definition testA : entry :=
  {[ "test" := VStr "riscv_arithmetic_basic_test"; "iterations" := VInt 2 ]}.

Definition testB : entry :=
  {[ "test" := VStr "riscv_rand_instr_test"; "iterations" := VInt 1;
     "gen_opts" := VStr "+instr_cnt=5000" ]}.

Definition testC : entry :=
  {[ "test" := VStr "riscv_jump_stress_test"; "iterations" := VInt 3 ]}.

Definition testD : entry :=
  {[ "test" := VStr "riscv_mmu_stress_test"; "iterations" := VInt 0 ]}.

Definition import_base : entry :=
  {[ "import" := VStr "<riscv_dv_root>/yaml/base_testlist.yaml" ]}.

Definition sample_fs (path : string) : file :=
  if String.eqb path "testlist.yaml" then Document [testA; import_base; testB]
  else if String.eqb path "/dv/yaml/base_testlist.yaml" then Document [testC]
  else if String.eqb path "flat.yaml" then Document [testA; testD; testB]
  else NoSuchFile.

(** The first child is still running when its time is up; the others are
    over at once with return code [0]. *)
Definition first_hangs (n : nat) : launch_result :=
  match n with
  | O => Starts Hangs
  | S _ => Starts (Completes "ok" 0)
  end.

(** A list that imports itself after its first test. *)
Definition import_self : entry :=
  {[ "import" := VStr "<riscv_dv_root>/loop.yaml" ]}.

Definition import_missing : entry :=
  {[ "import" := VStr "<riscv_dv_root>/missing.yaml" ]}.

Definition nameless : entry := {[ "iterations" := VInt 2 ]}.

Definition cyclic_fs (path : string) : file :=
  if String.eqb path "/dv/loop.yaml" then Document [testA; import_self; testB]
  else if String.eqb path "top.yaml" then Document [testA; import_missing; testB]
  else if String.eqb path "twice.yaml" then Document [import_base; import_base]
  else if String.eqb path "bad.yaml" then Document [testA; nameless; testB]
  else sample_fs path.

(** A list that holds nothing but an import. *)
Definition only_import_fs (path : string) : file :=
  if String.eqb path "all.yaml" then Document [import_base]
  else sample_fs path.

(** The first command fails with return code [2]; the others succeed. *)
Definition first_fails (n : nat) : launch_result :=
  match n with
  | O => Starts (Completes "boom" 2)
  | S _ => Starts (Completes "ok" 0)
  end.


(** The shell of the second command is over at once with return code [1],
    and a background job keeps its pipe open past the time allowed. *)
Definition second_lingers (n : nat) : launch_result :=
  match n with
  | 1%nat => Starts (Lingers 1)
  | _ => Starts (Completes "ok" 0)
  end.

(** The third launch raises. *)
Definition third_fails (n : nat) : launch_result :=
  match n with
  | 2%nat => FailsWith OSError
  | _ => Starts (Completes "ok" 0)
  end.

(** * Properties *)

(** ** List and world bookkeeping *)

Lemma insert_last {A} (l : list A) (x y : A) :
  <[length l := y]> (l ++ [x]) = l ++ [y].
Proof.
  induction l as [|a l IH]; simpl; [reflexivity|]. now rewrite IH.
Qed.

Lemma lookup_last {A} (l : list A) (x : A) :
  (l ++ [x]) !! length l = Some x.
Proof. now apply list_lookup_middle. Qed.

Lemma rc_is_error_Some rc check :
  rc_is_error (Some rc) check = check && (0 <? rc)%Z.
Proof.
  unfold rc_is_error, truthy.
  destruct (Z.eqb_spec rc 0), check, (Z.ltb_spec 0 rc);
    simpl; try reflexivity; lia.
Qed.

Ltac py_unfold :=
  unfold bind, try_except, Popen, communicate, kill, get_returncode,
    logging_debug, logging_info, logging_error, log, load_local, index,
    raise, sys_exit, ret, os_system.

Ltac py_simpl :=
  cbn [trace procs spawned matched_list emit set_procs count_spawn
       push_matched fst snd behaviour returncode killed fresh polled
       is_TimeoutExpired is_CalledProcessError rc_arg app].

Ltac py_eval :=
  py_unfold;
  repeat (py_simpl; first [rewrite lookup_last | rewrite insert_last]);
  py_simpl.

Ltac world_eq :=
  unfold emit, set_procs, count_spawn, push_matched; py_simpl;
  rewrite <- ?app_assoc; py_simpl; reflexivity.

(** ** The single executor *)

Section RunCmd.

Variable spawn : nat -> launch_result.
Variables (cmd : string) (timeout_s exit_on_error : Z).

(** What [run_cmd] does when the time is up while the child itself is
    over: the poll of [kill] stores its return code, no signal is sent, and
    the return-code test sees that code. *)
Lemma run_cmd_lingers (check_return_code : bool) (rc : Z) (w : world) :
  spawn (spawned w) = Starts (Lingers rc) ->
  let w1 :=
    {| trace := trace w ++
         [EvLog DEBUG cmd []; EvPopen ("exec " +:+ cmd) "/bin/bash";
          EvLog ERROR "Timeout[%ds]: %s" [VInt timeout_s; VStr cmd]];
       procs := procs w ++
         [{| behaviour := Lingers rc; returncode := Some rc;
             killed := false |}];
       spawned := S (spawned w);
       matched_list := matched_list w |} in
  run_cmd spawn cmd timeout_s exit_on_error check_return_code w =
    if check_return_code && (0 <? rc)%Z then
      let w2 :=
        emit (EvLog ERROR "ERROR return code: %d/%d, cmd:%s"
                    [VInt (Z.b2z check_return_code); VInt rc; VStr cmd])
             (emit (EvLog INFO "" []) w1) in
      if truthy exit_on_error then (SysExit RET_FAIL, w2)
      else (Returns "", emit (EvLog DEBUG "" []) w2)
    else (Returns "", emit (EvLog DEBUG "" []) w1).
Proof.
  intros Hspawn w1. unfold run_cmd. py_eval. rewrite Hspawn. py_eval.
  rewrite rc_is_error_Some.
  destruct (check_return_code && (0 <? rc)%Z); py_eval;
    [destruct (truthy exit_on_error)|]; py_eval; subst w1; world_eq.
Qed.


(** What [run_cmd] does with a child that is over in time. *)
Lemma run_cmd_completes (check_return_code : bool) (out : string) (rc : Z)
    (w : world) :
  spawn (spawned w) = Starts (Completes out rc) ->
  let w1 :=
    {| trace := trace w ++
         [EvLog DEBUG cmd []; EvPopen ("exec " +:+ cmd) "/bin/bash"];
       procs := procs w ++
         [{| behaviour := Completes out rc; returncode := Some rc;
             killed := false |}];
       spawned := S (spawned w);
       matched_list := matched_list w |} in
  run_cmd spawn cmd timeout_s exit_on_error check_return_code w =
    if check_return_code && (0 <? rc)%Z then
      let w2 :=
        emit (EvLog ERROR "ERROR return code: %d/%d, cmd:%s"
                    [VInt (Z.b2z check_return_code); VInt rc; VStr cmd])
             (emit (EvLog INFO out []) w1) in
      if truthy exit_on_error then (SysExit RET_FAIL, w2)
      else (Returns out, emit (EvLog DEBUG out []) w2)
    else (Returns out, emit (EvLog DEBUG out []) w1).
Proof.
  intros Hspawn w1. unfold run_cmd. py_eval. rewrite Hspawn. py_eval.
  rewrite rc_is_error_Some.
  destruct (check_return_code && (0 <? rc)%Z); py_eval;
    [destruct (truthy exit_on_error)|]; py_eval; subst w1; world_eq.
Qed.

(** C6: with [check_return_code] set, a strictly positive return code makes
    the call exit with [RET_FAIL] when [exit_on_error] is true, and return
    the captured output when it is false. *)
Theorem run_cmd_positive_return_code (out : string) (rc : Z) (w : world) :
  spawn (spawned w) = Starts (Completes out rc) ->
  (0 < rc)%Z ->
  fst (run_cmd spawn cmd timeout_s exit_on_error true w) =
    if truthy exit_on_error then SysExit RET_FAIL else Returns out.
Proof.
  intros Hspawn Hrc. rewrite (run_cmd_completes true out rc w Hspawn).
  cbn [andb]. destruct (Z.ltb_spec 0 rc); [|lia].
  now destruct (truthy exit_on_error).
Qed.

(** C8: a zero or negative return code never reaches the error branch: the
    call returns the output, and the only logging calls are the two
    [debug] ones, for every [exit_on_error] and [check_return_code]. *)
Theorem run_cmd_nonpositive_return_code (check_return_code : bool)
    (out : string) (rc : Z) (w : world) :
  spawn (spawned w) = Starts (Completes out rc) ->
  (rc <= 0)%Z ->
  run_cmd spawn cmd timeout_s exit_on_error check_return_code w =
    (Returns out,
     {| trace := trace w ++
          [EvLog DEBUG cmd []; EvPopen ("exec " +:+ cmd) "/bin/bash";
           EvLog DEBUG out []];
        procs := procs w ++
          [{| behaviour := Completes out rc; returncode := Some rc;
              killed := false |}];
        spawned := S (spawned w);
        matched_list := matched_list w |}).
Proof.
  intros Hspawn Hrc.
  rewrite (run_cmd_completes check_return_code out rc w Hspawn).
  destruct (Z.ltb_spec 0 rc); [lia|]. rewrite andb_false_r.
  world_eq.
Qed.

(** C2 (the code at a launch failure): when [Popen] raises, the call ends
    with an exception, not with [sys.exit(RET_FAIL)]: a class other than
    [CalledProcessError] passes the [except] clause, and inside the clause
    [ps] was never assigned. *)
Theorem run_cmd_launch_failure_raises (check_return_code : bool) (e : exn)
    (w : world) :
  spawn (spawned w) = FailsWith e ->
  run_cmd spawn cmd timeout_s exit_on_error check_return_code w =
    (Raises (if is_CalledProcessError e then UnboundLocalError "ps" else e),
     {| trace := trace w ++
          [EvLog DEBUG cmd []; EvPopen ("exec " +:+ cmd) "/bin/bash"];
        procs := procs w;
        spawned := S (spawned w);
        matched_list := matched_list w |}).
Proof.
  intros Hspawn. unfold run_cmd. py_eval. rewrite Hspawn.
  destruct e; py_eval; world_eq.
Qed.

End RunCmd.



Lemma run_cmd_positive_return_code_witness :
  fst (run_cmd (fun _ => Starts (Completes "boom" 2)) "false" 999 1 true
               init_world) = SysExit RET_FAIL /\
  fst (run_cmd (fun _ => Starts (Completes "boom" 2)) "false" 999 0 true
               init_world) = Returns "boom".
Proof.
  split.
  - exact (run_cmd_positive_return_code
             (fun _ => Starts (Completes "boom" 2)) "false" 999 1 "boom" 2
             init_world eq_refl eq_refl).
  - exact (run_cmd_positive_return_code
             (fun _ => Starts (Completes "boom" 2)) "false" 999 0 "boom" 2
             init_world eq_refl eq_refl).
Defined.

Lemma run_cmd_nonpositive_return_code_witness :
  run_cmd (fun _ => Starts (Completes "Killed" (-9))) "make sim" 999 1 true
          init_world =
    (Returns "Killed",
     {| trace :=
          [EvLog DEBUG "make sim" []; EvPopen "exec make sim" "/bin/bash";
           EvLog DEBUG "Killed" []];
        procs :=
          [{| behaviour := Completes "Killed" (-9); returncode := Some (-9);
              killed := false |}];
        spawned := 1;
        matched_list := [] |}).
Proof.
  apply (run_cmd_nonpositive_return_code
           (fun _ => Starts (Completes "Killed" (-9))) "make sim" 999 1 true
           "Killed" (-9) init_world eq_refl).
  vm_compute. discriminate.
Defined.

Lemma run_cmd_launch_failure_raises_witness :
  run_cmd (fun _ => FailsWith FileNotFoundError) "ls" 999 1 true init_world =
    (Raises FileNotFoundError,
     {| trace := [EvLog DEBUG "ls" []; EvPopen "exec ls" "/bin/bash"];
        procs := [];
        spawned := 1;
        matched_list := [] |}).
Proof.
  exact (run_cmd_launch_failure_raises (fun _ => FailsWith FileNotFoundError)
           "ls" 999 1 true FileNotFoundError init_world eq_refl).
Defined.

(** ** The parallel executor *)

Lemma shell_cmds_app t1 t2 :
  shell_cmds (t1 ++ t2) = shell_cmds t1 ++ shell_cmds t2.
Proof. apply omap_app. Qed.

Create HintDb quiet.

Lemma no_spawn_ret {A} (a : A) : no_spawn (ret a).
Proof. intros w. reflexivity. Qed.

Lemma no_spawn_raise {A} e : no_spawn (@raise A e).
Proof. intros w. reflexivity. Qed.

Lemma no_spawn_sys_exit {A} c : no_spawn (@sys_exit A c).
Proof. intros w. reflexivity. Qed.

Lemma no_spawn_log lvl fmt args : no_spawn (log lvl fmt args).
Proof.
  intros w. unfold log. py_simpl. rewrite shell_cmds_app. apply app_nil_r.
Qed.

Lemma no_spawn_os_system c : no_spawn (os_system c).
Proof.
  intros w. unfold os_system. py_simpl. rewrite shell_cmds_app.
  apply app_nil_r.
Qed.

Lemma no_spawn_load_local {A} name (v : option A) :
  no_spawn (load_local name v).
Proof. intros w. now destruct v. Qed.

Lemma no_spawn_index {A} (l : list A) i : no_spawn (index l i).
Proof. intros w. unfold index. now destruct (l !! i). Qed.

Lemma no_spawn_communicate ps t : no_spawn (communicate ps t).
Proof.
  intros w. unfold communicate.
  destruct (procs w !! ps) as [p|]; [|reflexivity].
  destruct (behaviour p); [reflexivity| |]; now destruct t.
Qed.

Lemma no_spawn_kill ps : no_spawn (kill ps).
Proof.
  intros w. unfold kill. destruct (procs w !! ps) as [p|]; [|reflexivity].
  destruct (polled p); [reflexivity|].
  py_simpl. rewrite shell_cmds_app. apply app_nil_r.
Qed.

Lemma no_spawn_get_returncode ps : no_spawn (get_returncode ps).
Proof.
  intros w. unfold get_returncode. now destruct (procs w !! ps).
Qed.

Lemma no_spawn_bind {A B} (m : M A) (k : A -> M B) :
  no_spawn m -> (forall a, no_spawn (k a)) -> no_spawn (bind m k).
Proof.
  intros Hm Hk w. unfold bind. specialize (Hm w).
  destruct (m w) as [[a| | |] w']; simpl in *; try assumption.
  now rewrite Hk.
Qed.

Lemma no_spawn_try {A} (body : M A) handler :
  no_spawn body ->
  (forall e h, handler e = Some h -> no_spawn h) ->
  no_spawn (try_except body handler).
Proof.
  intros Hb Hh w. unfold try_except. specialize (Hb w).
  destruct (body w) as [[a| |e|] w']; simpl in *; try assumption.
  destruct (handler e) as [h|] eqn:He; [|assumption].
  now rewrite (Hh e h He).
Qed.

Lemma no_spawn_if {A} (b : bool) (m1 m2 : M A) :
  no_spawn m1 -> no_spawn m2 -> no_spawn (if b then m1 else m2).
Proof. now destruct b. Qed.

Lemma no_spawn_for_each {A S} (l : list A) (body : S -> A -> M S) :
  (forall s x, no_spawn (body s x)) -> forall s, no_spawn (for_each l body s).
Proof.
  intros Hbody. induction l as [|x l IH]; intros s; simpl.
  - apply no_spawn_ret.
  - apply no_spawn_bind; auto.
Qed.

#[local] Hint Resolve no_spawn_ret no_spawn_raise no_spawn_sys_exit no_spawn_log
  no_spawn_os_system no_spawn_load_local no_spawn_index no_spawn_communicate
  no_spawn_kill no_spawn_get_returncode no_spawn_if : quiet.

Ltac quiet :=
  repeat first
    [ apply no_spawn_bind; [|intros ?]
    | apply no_spawn_if
    | apply no_spawn_try;
      [|intros ? ? Hh;
        match type of Hh with
        | (if ?c then _ else _) = _ => destruct c; [|discriminate]
        end; injection Hh as <-]
    | solve [unfold logging_debug, logging_info, logging_error;
             auto with quiet] ].

Lemma no_spawn_wait_child cmd_list children cmd t ex chk output i :
  no_spawn (wait_child cmd_list children cmd t ex chk output i).
Proof. unfold wait_child. quiet. Qed.

Lemma no_spawn_wait_all cmd_list children cmd t ex chk :
  no_spawn (wait_all cmd_list children cmd t ex chk).
Proof.
  unfold wait_all. apply no_spawn_for_each. intros s x.
  apply no_spawn_wait_child.
Qed.

Lemma launch_loop_shell_cmds spawn cmds :
  forall acc w,
    shell_cmds (trace (for_each cmds (launch spawn) acc w).2) =
    shell_cmds (trace w) ++
    ((fun c => ("exec " +:+ c, "/bin/bash")) <$>
       take (attempts spawn (spawned w) cmds) cmds).
Proof.
  induction cmds as [|c cmds IH]; intros [children c0] w.
  - simpl. now rewrite app_nil_r.
  - cbn [for_each attempts]; unfold launch at 1. py_unfold.
    destruct (spawn (spawned w)) as [b|e]; py_simpl.
    + rewrite IH. py_simpl. rewrite shell_cmds_app.
      now rewrite <- app_assoc.
    + now rewrite shell_cmds_app.
Qed.

Lemma attempts_all_start spawn cmds :
  forall n,
    (forall i, (i < length cmds)%nat -> exists b, spawn (n + i)%nat = Starts b) ->
    attempts spawn n cmds = length cmds.
Proof.
  induction cmds as [|c cmds IH]; intros n Hall; [reflexivity|].
  simpl. destruct (Hall 0%nat) as [b Hb]; [simpl; lia|].
  rewrite Nat.add_0_r in Hb. rewrite Hb. f_equal. apply IH.
  intros i Hi. destruct (Hall (S i)) as [b' Hb']; [simpl; lia|].
  exists b'. now rewrite <- Hb', Nat.add_succ_r.
Qed.

(** A launch followed by code that launches nothing. *)
Lemma shell_cmds_bind_quiet {A B} (m : M A) (k : A -> M B) l :
  (forall w, shell_cmds (trace (m w).2) = shell_cmds (trace w) ++ l) ->
  (forall a, no_spawn (k a)) ->
  forall w, shell_cmds (trace (bind m k w).2) = shell_cmds (trace w) ++ l.
Proof.
  intros Hm Hk w. unfold bind. specialize (Hm w).
  destruct (m w) as [[a| | |] w']; cbn [snd] in *; try assumption.
  now rewrite Hk.
Qed.

(** The guarded [Popen] of [run_cmd] makes one launch, whether it starts
    or raises. *)
Lemma shell_cmds_guarded_Popen spawn shell_cmd executable w :
  shell_cmds
    (trace
       (try_except
          (Popen spawn shell_cmd executable)
          (fun e =>
             if is_CalledProcessError e then
               Some (ps <- load_local "ps" None ;;
                     out <- communicate ps None ;;
                     logging_error out [] ;;
                     sys_exit RET_FAIL)
             else None) w).2) =
  shell_cmds (trace w) ++ [(shell_cmd, executable)].
Proof.
  unfold try_except, Popen.
  destruct (spawn (spawned w)) as [b|e]; py_simpl.
  - now rewrite shell_cmds_app.
  - destruct (is_CalledProcessError e); py_unfold; py_simpl;
      now rewrite shell_cmds_app.
Qed.

(** C9: the shell never receives the command as given: [run_cmd] hands
    ["exec " + cmd] to [/bin/bash], and [run_parallel_cmd] does so for each
    command it launches, in the order of the list. *)
Theorem executors_prepend_exec (spawn : nat -> launch_result)
    (timeout_s exit_on_error : Z) (check_return_code : bool) (w : world) :
  (forall cmd,
     shell_cmds (trace (run_cmd spawn cmd timeout_s exit_on_error
                                check_return_code w).2) =
     shell_cmds (trace w) ++ [("exec " +:+ cmd, "/bin/bash")]) /\
  (forall cmd_list,
     shell_cmds (trace (run_parallel_cmd spawn cmd_list timeout_s
                                         exit_on_error check_return_code w).2) =
     shell_cmds (trace w) ++
     ((fun c => ("exec " +:+ c, "/bin/bash")) <$>
        take (attempts spawn (spawned w) cmd_list) cmd_list)).
Proof.
  split.
  - intros cmd. unfold run_cmd. unfold bind at 1.
    unfold logging_debug at 1, log at 1.
    rewrite shell_cmds_bind_quiet
      with (l := [("exec " +:+ cmd, "/bin/bash")]).
    + py_simpl. rewrite shell_cmds_app. cbn [shell_cmds omap].
      now rewrite app_nil_r.
    + apply shell_cmds_guarded_Popen.
    + intros ps. quiet.
  - intros cmd_list. unfold run_parallel_cmd, launch_all.
    unfold bind at 1.
    pose proof (launch_loop_shell_cmds spawn cmd_list ([], None) w) as Hl.
    destruct (for_each cmd_list (launch spawn) ([], None) w)
      as [[[children cmd]| | |] w1]; py_simpl; try exact Hl.
    rewrite <- Hl.
    apply (no_spawn_bind (wait_all cmd_list children cmd timeout_s
                            exit_on_error check_return_code)
             (fun _ => ret tt)).
    + apply no_spawn_wait_all.
    + intros _. apply no_spawn_ret.
Qed.

(** The first loop when every launch succeeds. *)
Lemma launch_loop_starts spawn cmds :
  forall bs children c0 w,
    Forall2 (fun i b => spawn i = Starts b)
            (seq (spawned w) (length cmds)) bs ->
    for_each cmds (launch spawn) (children, c0) w =
      (Returns (children ++ seq (length (procs w)) (length cmds),
                from_option Some c0 (last cmds)),
       {| trace := trace w ++
            ((fun c => EvPopen ("exec " +:+ c) "/bin/bash") <$> cmds);
          procs := procs w ++ (fresh <$> bs);
          spawned := spawned w + length cmds;
          matched_list := matched_list w |}).
Proof.
  induction cmds as [|c cmds IH]; intros bs children c0 w Hbs.
  - inversion Hbs; subst. cbn [for_each length seq fmap list_fmap last from_option].
    unfold ret. rewrite !app_nil_r, Nat.add_0_r. now destruct w.
  - cbn [length seq] in Hbs. inversion Hbs as [|i b ixs bs' Hb Hrest]; subst.
    cbn [for_each]. unfold launch at 1. py_unfold. rewrite Hb. py_simpl.
    rewrite IH with (bs := bs').
    + py_simpl. rewrite length_app. cbn [length].
      rewrite Nat.add_1_r, <- !app_assoc. cbn [app length seq fmap list_fmap].
      rewrite Nat.add_succ_r. f_equal. f_equal.
      rewrite last_cons. now destruct (last cmds).
    + py_simpl. exact Hrest.
Qed.

Lemma insert_middle {A} (l r : list A) (x y : A) :
  <[length l := y]> (l ++ x :: r) = l ++ y :: r.
Proof.
  induction l as [|a l IH]; simpl; [reflexivity|]. now rewrite IH.
Qed.

(** C1 (the code when the first command times out): every command is
    launched, the first wait times out and its child is killed, and the
    round then ends at [logging.debug(output)] with [output] never
    assigned; no later command is waited on. *)
Theorem run_parallel_cmd_first_timeout (spawn : nat -> launch_result)
    (c : string) (cs : list string) (bs : list wait_result)
    (timeout_s exit_on_error : Z) (check_return_code : bool) (w : world) :
  spawn (spawned w) = Starts Hangs ->
  Forall2 (fun i b => spawn i = Starts b)
          (seq (S (spawned w)) (length cs)) bs ->
  run_parallel_cmd spawn (c :: cs) timeout_s exit_on_error
                   check_return_code w =
    (Raises (UnboundLocalError "output"),
     {| trace := trace w ++
          ((fun c => EvPopen ("exec " +:+ c) "/bin/bash") <$> c :: cs) ++
          [EvLog INFO "Command progress: %d/%d"
                 [VInt 0; VInt (Z.of_nat (S (length cs)))];
           EvLog DEBUG "Waiting for command: %s" [VStr c];
           EvLog ERROR "Timeout[%ds]: %s"
                 [VInt timeout_s; VStr (default c (last cs))];
           EvKill (length (procs w));
           EvSystem "stty sane"];
        procs := procs w ++
          {| behaviour := Hangs; returncode := None; killed := true |}
          :: (fresh <$> bs);
        spawned := spawned w + S (length cs);
        matched_list := matched_list w |}).
Proof.
  intros Hfirst Hrest. unfold run_parallel_cmd, launch_all.
  unfold bind at 1.
  rewrite (launch_loop_starts spawn (c :: cs) (Hangs :: bs)).
  2:{ cbn [length seq]. now constructor. }
  cbn [app length]. unfold wait_all. rewrite length_seq.
  cbn [seq for_each from_option]. rewrite last_cons.
  replace (match last cs with Some y => Some y | None => Some c end)
    with (Some (default c (last cs))) by now destruct (last cs).
  unfold wait_child. cbn [length]. rewrite length_seq. py_unfold.
  repeat first
    [ progress cbn [trace procs spawned matched_list emit set_procs
                    count_spawn fst snd behaviour returncode killed
                    is_TimeoutExpired rc_arg app from_option rc_is_error
                    fresh polled lookup list_lookup fmap list_fmap]
    | rewrite list_lookup_middle by reflexivity
    | rewrite insert_middle ].
  world_eq.
Qed.

Lemma run_parallel_cmd_first_timeout_witness :
  run_parallel_cmd first_hangs ["sleep 5"; "echo ok"] 1 0 true init_world =
    (Raises (UnboundLocalError "output"),
     {| trace :=
          [EvPopen "exec sleep 5" "/bin/bash";
           EvPopen "exec echo ok" "/bin/bash";
           EvLog INFO "Command progress: %d/%d" [VInt 0; VInt 2];
           EvLog DEBUG "Waiting for command: %s" [VStr "sleep 5"];
           EvLog ERROR "Timeout[%ds]: %s" [VInt 1; VStr "echo ok"];
           EvKill 0; EvSystem "stty sane"];
        procs :=
          [{| behaviour := Hangs; returncode := None; killed := true |};
           {| behaviour := Completes "ok" 0; returncode := None;
              killed := false |}];
        spawned := 2;
        matched_list := [] |}).
Proof.
  apply (run_parallel_cmd_first_timeout first_hangs "sleep 5" ["echo ok"]
           [Completes "ok" 0] 1 0 true init_world eq_refl).
  repeat constructor.
Defined.

(** ** The resolver *)

Lemma is_test_node_inv e :
  is_test_node e = true ->
  e !! "import" = None /\
  exists name k, e !! "test" = Some name /\ e !! "iterations" = Some (VInt k).
Proof.
  unfold is_test_node.
  destruct (e !! "import"); [discriminate|].
  destruct (e !! "test") as [name|]; [|discriminate].
  destruct (e !! "iterations") as [[s|k|]|]; try discriminate.
  intros _. split; [reflexivity|]. now exists name, k.
Qed.

Lemma positive_count_override n e :
  positive_count (apply_override n e) = positive_count e.
Proof.
  unfold apply_override.
  destruct (0 <? n)%Z eqn:Hn; [|reflexivity].
  destruct (positive_count e) eqn:He; cbn [andb]; [|exact He].
  unfold positive_count. now rewrite lookup_insert_eq.
Qed.

Ltac res_unfold :=
  unfold process_test, getitem, gt_zero, as_str, append, bind, ret, raise,
    logging_info, log.

(** [process_test] on a well-formed test node. *)
Lemma process_test_node test mult_test n e name k w :
  e !! "test" = Some name ->
  e !! "iterations" = Some (VInt k) ->
  process_test test mult_test n e w =
    if (value_in name mult_test || String.eqb test "all")
       && positive_count e
    then (Returns tt,
          push_matched (apply_override n e)
            (emit (EvLog INFO "Found matched tests: %s, iterations:%0d"
                         [name; VInt (if (0 <? n)%Z then n else k)]) w))
    else (Returns tt, w).
Proof.
  intros Htest Hiter. unfold apply_override, positive_count.
  res_unfold. rewrite Htest, Hiter.
  destruct (value_in name mult_test || String.eqb test "all");
    [|reflexivity].
  destruct (0 <? n)%Z eqn:Hn, (0 <? k)%Z eqn:Hk; cbn [andb];
    rewrite ?lookup_insert_eq, ?Hiter, ?Hn, ?Hk;
    try reflexivity.
  - rewrite lookup_insert_ne by discriminate. rewrite Htest. reflexivity.
  - rewrite Htest. reflexivity.
Qed.

Lemma resolves_ret : resolves (ret tt) [].
Proof. intros w. exists w. now rewrite app_nil_r. Qed.

Lemma resolves_for_each_cons {A} (body : unit -> A -> M unit) x l new1 new2 :
  resolves (body tt x) new1 ->
  resolves (for_each l body tt) new2 ->
  resolves (for_each (x :: l) body tt) (new1 ++ new2).
Proof.
  intros H1 H2 w. destruct (H1 w) as (w1 & E1 & M1).
  destruct (H2 w1) as (w2 & E2 & M2). exists w2.
  cbn [for_each]. unfold bind. rewrite E1, E2, M2, M1.
  now rewrite app_assoc.
Qed.

Lemma resolves_process_test test n e :
  is_test_node e = true ->
  resolves (process_test test (split "," test) n e)
           (if selected test e && positive_count e
            then [apply_override n e] else []).
Proof.
  intros He w. apply is_test_node_inv in He as (_ & name & k & Ht & Hi).
  rewrite (process_test_node test _ n e name k w Ht Hi).
  unfold selected. rewrite Ht.
  destruct ((value_in name (split "," test) || String.eqb test "all")
            && positive_count e).
  - eexists. split; reflexivity.
  - exists w. now rewrite app_nil_r.
Qed.

Lemma process_entry_test_node recurse test mult_test n root e :
  is_test_node e = true ->
  process_entry recurse test mult_test n root e =
  process_test test mult_test n e.
Proof.
  intros He. apply is_test_node_inv in He as (Hi & _).
  unfold process_entry. rewrite Hi.
  rewrite bool_decide_eq_false_2; [reflexivity|].
  intros [v Hv]. discriminate.
Qed.

Lemma process_entry_import recurse test mult_test n root e path :
  e !! "import" = Some (VStr path) ->
  process_entry recurse test mult_test n root e =
  recurse (re_sub "<riscv_dv_root>" root path).
Proof.
  intros He. unfold process_entry, getitem, as_str. rewrite He.
  rewrite bool_decide_eq_true_2 by eauto. reflexivity.
Qed.

(** A list that loads resolves to whatever its nodes resolve to. *)
Lemma resolves_list fs fuel testlist test n root doc new :
  fs testlist = Document doc ->
  resolves
    (for_each doc
       (fun _ entry =>
          process_entry
            (fun sub_list =>
               process_regression_list fs fuel sub_list test n root)
            test (split "," test) n root entry) tt) new ->
  resolves (process_regression_list fs (S fuel) testlist test n root) new.
Proof.
  intros Hfs Hloop w. cbn [process_regression_list].
  unfold bind at 1. unfold logging_info, log.
  unfold bind at 1. unfold read_yaml. rewrite Hfs. unfold ret at 1.
  destruct (Hloop (emit (EvLog INFO
              "Processing regression test list : %s, test: %s"
              [VStr testlist; VStr test]) w)) as (w' & E & Hm).
  exists w'. split; [exact E|exact Hm].
Qed.

Lemma selected_override test n e :
  selected test (apply_override n e) = selected test e.
Proof.
  unfold selected, apply_override.
  destruct ((0 <? n)%Z && positive_count e); [|reflexivity].
  now rewrite lookup_insert_ne by discriminate.
Qed.

(** The nodes of a document without imports, under any selection. *)
Lemma resolves_import_free recurse test n root doc :
  forallb is_test_node doc = true ->
  resolves
    (for_each doc
       (fun _ entry =>
          process_entry recurse test (split "," test) n root entry) tt)
    (List.filter (fun e => selected test e && positive_count e)
                 (apply_override n <$> doc)).
Proof.
  induction doc as [|e doc IH]; intros Hdoc.
  - apply resolves_ret.
  - cbn [forallb] in Hdoc. apply andb_prop in Hdoc as [He Hdoc].
    cbn [fmap list_fmap List.filter].
    rewrite selected_override, positive_count_override.
    pose proof (resolves_process_test test n e He) as Hnode.
    rewrite <- (process_entry_test_node recurse test _ n root e He)
      in Hnode.
    destruct (selected test e && positive_count e).
    + apply (resolves_for_each_cons _ e doc [apply_override n e]);
        [exact Hnode|now apply IH].
    + apply (resolves_for_each_cons _ e doc []);
        [exact Hnode|now apply IH].
Qed.

Lemma selected_all e : is_test_node e = true -> selected "all" e = true.
Proof.
  intros He. apply is_test_node_inv in He as (_ & name & k & Ht & _).
  unfold selected. rewrite Ht. apply orb_true_r.
Qed.

Lemma resolved_all_filter n doc :
  forallb is_test_node doc = true ->
  List.filter (fun e => selected "all" e && positive_count e)
              (apply_override n <$> doc) = resolved_all n doc.
Proof.
  unfold resolved_all. induction doc as [|e doc IH]; intros Hdoc;
    [reflexivity|].
  cbn [forallb] in Hdoc. apply andb_prop in Hdoc as [He Hdoc].
  cbn [fmap list_fmap List.filter].
  now rewrite (IH Hdoc), selected_override, (selected_all e He).
Qed.

(** *** The accumulator only grows *)

Section Appends.

Context (P : entry -> Prop).

Lemma appends_same {A} (m : M A) :
  (forall w, matched_list (m w).2 = matched_list w) -> appends P m.
Proof.
  intros H w. exists []. rewrite H, app_nil_r. now split.
Qed.

Lemma appends_bind {A B} (m : M A) (k : A -> M B) :
  appends P m -> (forall a, appends P (k a)) -> appends P (bind m k).
Proof.
  intros Hm Hk w. unfold bind. destruct (Hm w) as (new1 & E1 & F1).
  destruct (m w) as [[a| | |] w1]; cbn [snd] in *; eauto.
  destruct (Hk a w1) as (new2 & E2 & F2). exists (new1 ++ new2).
  rewrite E2, E1, app_assoc. split; [reflexivity|].
  now apply Forall_app.
Qed.

Lemma appends_if {A} (b : bool) (m1 m2 : M A) :
  appends P m1 -> appends P m2 -> appends P (if b then m1 else m2).
Proof. now destruct b. Qed.

Lemma appends_for_each {A S} (l : list A) (body : S -> A -> M S) :
  (forall s x, appends P (body s x)) ->
  forall s, appends P (for_each l body s).
Proof.
  intros Hbody. induction l as [|x l IH]; intros s; cbn [for_each].
  - now apply appends_same.
  - apply appends_bind; auto.
Qed.

Lemma appends_ret {A} (a : A) : appends P (ret a).
Proof. now apply appends_same. Qed.

Lemma appends_raise {A} e : appends P (@raise A e).
Proof. now apply appends_same. Qed.

Lemma appends_log lvl fmt args : appends P (log lvl fmt args).
Proof. now apply appends_same. Qed.

Lemma appends_getitem d key : appends P (getitem d key).
Proof. apply appends_same. intros w. unfold getitem. now destruct (d !! key). Qed.

Lemma appends_gt_zero v : appends P (gt_zero v).
Proof. apply appends_same. intros w. now destruct v. Qed.

Lemma appends_as_str v : appends P (as_str v).
Proof. apply appends_same. intros w. now destruct v. Qed.

Lemma appends_read_yaml fs path : appends P (read_yaml fs path).
Proof.
  apply appends_same. intros w. unfold read_yaml. now destruct (fs path).
Qed.

Lemma appends_append e : P e -> appends P (append e).
Proof.
  intros He w. exists [e]. split; [reflexivity|]. now constructor.
Qed.

(** [d[key]] and [v > 0] followed by code that may use what they found. *)
Lemma appends_getitem_bind {B} d key (k : value -> M B) :
  (forall v, d !! key = Some v -> appends P (k v)) ->
  appends P (bind (getitem d key) k).
Proof.
  intros Hk w. unfold bind, getitem.
  destruct (d !! key) as [v|] eqn:Hv; [now apply Hk|].
  exists []. rewrite app_nil_r. now split.
Qed.

Lemma appends_gt_zero_bind {B} v (k : bool -> M B) :
  (forall z, v = VInt z -> appends P (k (0 <? z)%Z)) ->
  appends P (bind (gt_zero v) k).
Proof.
  intros Hk w. unfold bind.
  destruct v as [s|z|]; cbn [gt_zero]; [|now apply Hk|];
    exists []; rewrite app_nil_r; now split.
Qed.

End Appends.

(** Every entry [process_test] appends has a positive count. *)
Lemma appends_process_test test mult_test n e :
  appends (fun e' => positive_count e' = true)
          (process_test test mult_test n e).
Proof.
  unfold process_test.
  apply appends_bind; [apply appends_getitem|intros name].
  apply appends_if; [|apply appends_ret].
  apply appends_bind.
  { apply appends_if; [|apply appends_ret].
    apply appends_bind; [apply appends_getitem|intros v].
    apply appends_gt_zero. }
  intros override. cbv zeta.
  apply appends_getitem_bind. intros v Hv.
  apply appends_gt_zero_bind. intros z ->.
  destruct (0 <? z)%Z eqn:Hz; [|apply appends_ret].
  apply appends_bind; [apply appends_getitem|intros name'].
  apply appends_bind; [apply appends_getitem|intros count].
  apply appends_bind; [apply appends_log|intros _].
  apply appends_append. unfold positive_count. now rewrite Hv.
Qed.

Lemma appends_process_regression_list fs fuel :
  forall testlist test n root,
    appends (fun e' => positive_count e' = true)
            (process_regression_list fs fuel testlist test n root).
Proof.
  induction fuel as [|fuel IH]; intros testlist test n root.
  - now apply appends_same.
  - cbn [process_regression_list].
    apply appends_bind; [apply appends_log|intros _].
    apply appends_bind; [apply appends_read_yaml|intros doc].
    apply appends_for_each. intros _ e. unfold process_entry.
    apply appends_if; [|apply appends_process_test].
    apply appends_bind; [apply appends_getitem|intros v].
    apply appends_bind; [apply appends_as_str|intros path].
    apply IH.
Qed.

(** [process_test] skips an entry whose declared count is not positive,
    without a trace. *)
Lemma process_test_disabled test mult_test n e k w :
  e !! "iterations" = Some (VInt k) ->
  (k <= 0)%Z ->
  (process_test test mult_test n e w).2 = w.
Proof.
  intros Hi Hk. destruct (e !! "test") as [name|] eqn:Ht.
  - rewrite (process_test_node test mult_test n e name k w Ht Hi).
    unfold positive_count. rewrite Hi.
    destruct (Z.ltb_spec 0 k); [lia|]. now rewrite andb_false_r.
  - unfold process_test, bind, getitem. now rewrite Ht.
Qed.

(** C3: a document without import nodes, resolved with ["all"], appends
    exactly the entries whose count is positive after the override step, in
    document order; and an entry whose declared count is zero or negative
    is skipped by [process_test] and is never among the entries a call
    appends, whatever the selection and the override. *)
Theorem resolve_all_import_free :
  (forall fs fuel testlist n root doc w,
     fs testlist = Document doc ->
     forallb is_test_node doc = true ->
     exists w',
       process_regression_list fs (S fuel) testlist "all" n root w =
         (Returns tt, w') /\
       matched_list w' = matched_list w ++ resolved_all n doc) /\
  (forall test mult_test n e k w,
     e !! "iterations" = Some (VInt k) ->
     (k <= 0)%Z ->
     matched_list (process_test test mult_test n e w).2 = matched_list w) /\
  (forall fs fuel testlist test n root w e k,
     e !! "iterations" = Some (VInt k) ->
     (k <= 0)%Z ->
     e ∉ drop (length (matched_list w))
              (matched_list
                 (process_regression_list fs fuel testlist test n root w).2)).
Proof.
  split; [|split].
  - intros fs fuel testlist n root doc w Hfs Hdoc.
    apply (resolves_list fs fuel testlist "all" n root doc); [exact Hfs|].
    rewrite <- (resolved_all_filter n doc Hdoc).
    now apply resolves_import_free.
  - intros test mult_test n e k w Hi Hk.
    now rewrite (process_test_disabled test mult_test n e k w Hi Hk).
  - intros fs fuel testlist test n root w e k Hi Hk Hin.
    destruct (appends_process_regression_list fs fuel testlist test n root w)
      as (new & E & F).
    rewrite E, drop_app_length in Hin.
    rewrite Forall_forall in F. apply F in Hin.
    unfold positive_count in Hin. rewrite Hi in Hin.
    destruct (Z.ltb_spec 0 k); [lia|discriminate].
Qed.


Lemma resolve_all_import_free_witness :
  exists w',
    process_regression_list sample_fs 1 "flat.yaml" "all" 0 "/dv" init_world =
      (Returns tt, w') /\
    matched_list w' = [testA; testB].
Proof.
  exact (proj1 resolve_all_import_free sample_fs 0%nat "flat.yaml" 0 "/dv"
           [testA; testD; testB] init_world eq_refl eq_refl).
Defined.

Ltac nothing_new := exists []; rewrite app_nil_r; now split.

(** With a positive override, what [process_test] appends carries exactly
    the override as its count. *)
Lemma appends_process_test_override test mult_test n e :
  (0 < n)%Z ->
  appends (fun e' => e' !! "iterations" = Some (VInt n))
          (process_test test mult_test n e).
Proof.
  intros Hn w. apply Z.ltb_lt in Hn as Hn'.
  unfold process_test, bind, getitem, gt_zero, ret, raise, logging_info,
    log, append.
  destruct (e !! "test") as [name|] eqn:Ht; [|nothing_new].
  destruct (value_in name mult_test || String.eqb test "all");
    [|nothing_new].
  rewrite Hn'.
  destruct (e !! "iterations") as [[s|k|]|] eqn:Hi; try nothing_new.
  destruct (0 <? k)%Z eqn:Hk.
  - rewrite lookup_insert_eq, Hn'.
    rewrite lookup_insert_ne by discriminate. rewrite Ht.
    exists [<["iterations" := VInt n]> e]. split; [reflexivity|].
    constructor; [apply lookup_insert_eq|constructor].
  - rewrite Hi, Hk. nothing_new.
Qed.

Lemma appends_process_regression_list_override fs fuel n :
  (0 < n)%Z ->
  forall testlist test root,
    appends (fun e' => e' !! "iterations" = Some (VInt n))
            (process_regression_list fs fuel testlist test n root).
Proof.
  intros Hn. induction fuel as [|fuel IH]; intros testlist test root.
  - now apply appends_same.
  - cbn [process_regression_list].
    apply appends_bind; [apply appends_log|intros _].
    apply appends_bind; [apply appends_read_yaml|intros doc].
    apply appends_for_each. intros _ e. unfold process_entry.
    apply appends_if; [|now apply appends_process_test_override].
    apply appends_bind; [apply appends_getitem|intros v].
    apply appends_bind; [apply appends_as_str|intros path].
    apply IH.
Qed.

(** What a list of test nodes contributes, around one of its nodes that is
    selected and has a positive count. *)
Lemma resolved_around test n pre e post :
  selected test e = true ->
  positive_count e = true ->
  resolved test n (pre ++ e :: post) =
  resolved test n pre ++ apply_override n e :: resolved test n post.
Proof.
  intros Hsel Hpos. unfold resolved.
  rewrite fmap_app, List.filter_app. cbn [fmap list_fmap List.filter].
  now rewrite selected_override, positive_count_override, Hsel, Hpos.
Qed.

(** Without an override the contribution of a list is a selection of its
    nodes, as they were declared. *)
Lemma resolved_zero_declared test doc e :
  e ∈ resolved test 0 doc -> e ∈ doc.
Proof.
  unfold resolved. rewrite list_elem_of_In, filter_In, <- list_elem_of_In.
  intros [He _]. apply list_elem_of_fmap in He as (e0 & -> & He0).
  exact He0.
Qed.

(** C4: the resolver hands out a selected entry with declared count
    [K > 0] carrying the override [N] when [N] is positive, and as it was
    declared, with its count [K], when the override is [0].  The entry
    stands anywhere in a list of test nodes, and the call appends it between
    what the nodes before it and the nodes after it resolve to; without an
    override every entry appended is a node of the list as declared.
    Whatever the lists hold, imports included, every entry a call appends
    under a positive override carries the override. *)
Theorem override_policy :
  (forall fs fuel testlist test riscv_dv_root pre post e K N w,
     fs testlist = Document (pre ++ e :: post) ->
     forallb is_test_node (pre ++ e :: post) = true ->
     selected test e = true ->
     e !! "iterations" = Some (VInt K) ->
     (0 < K)%Z ->
     ((0 < N)%Z ->
      exists w',
        process_regression_list fs (S fuel) testlist test N riscv_dv_root w =
          (Returns tt, w') /\
        matched_list w' =
          matched_list w ++
          resolved test N pre ++
          <["iterations" := VInt N]> e :: resolved test N post /\
        (<["iterations" := VInt N]> e) !! "iterations" = Some (VInt N)) /\
     (exists w',
        process_regression_list fs (S fuel) testlist test 0 riscv_dv_root w =
          (Returns tt, w') /\
        matched_list w' =
          matched_list w ++
          resolved test 0 pre ++ e :: resolved test 0 post /\
        Forall (fun e' => e' ∈ pre ++ e :: post)
               (drop (length (matched_list w)) (matched_list w')))) /\
  (forall fs fuel testlist test riscv_dv_root N w,
     (0 < N)%Z ->
     Forall (fun e' => e' !! "iterations" = Some (VInt N))
       (drop (length (matched_list w))
          (matched_list
             (process_regression_list fs fuel testlist test N
                                      riscv_dv_root w).2))).
Proof.
  split.
  - intros fs fuel testlist test root pre post e K N w Hfs Hdoc Hsel Hi HK.
    assert (Hpos : positive_count e = true).
    { unfold positive_count. rewrite Hi. now apply Z.ltb_lt. }
    assert (Hcall : forall n,
               resolves (process_regression_list fs (S fuel) testlist test n
                                                 root)
                        (resolved test n pre ++
                         apply_override n e :: resolved test n post)).
    { intros n. rewrite <- (resolved_around test n pre e post Hsel Hpos).
      apply (resolves_list fs fuel testlist test n root (pre ++ e :: post));
        [exact Hfs|].
      now apply resolves_import_free. }
    split.
    + intros HN. destruct (Hcall N w) as (w' & E & Hm). exists w'.
      split; [exact E|]. split; [|apply lookup_insert_eq].
      rewrite Hm. unfold apply_override. rewrite Hpos.
      now destruct (Z.ltb_spec 0 N); [|lia].
    + destruct (Hcall 0 w) as (w' & E & Hm). exists w'.
      split; [exact E|]. split; [exact Hm|].
      rewrite Hm, drop_app_length.
      rewrite <- (resolved_around test 0 pre e post Hsel Hpos).
      apply Forall_forall. intros e'. apply resolved_zero_declared.
  - intros fs fuel testlist test root N w HN.
    destruct (appends_process_regression_list_override fs fuel N HN
                testlist test root w) as (new & E & F).
    now rewrite E, drop_app_length.
Qed.

Lemma override_policy_witness :
  (exists w',
     process_regression_list sample_fs 1 "flat.yaml" "all" 7 "/dv"
                             init_world = (Returns tt, w') /\
     matched_list w' =
       [<["iterations" := VInt 7]> testA;
        <["iterations" := VInt 7]> testB]) /\
  (exists w',
     process_regression_list sample_fs 1 "flat.yaml" "all" 0 "/dv"
                             init_world = (Returns tt, w') /\
     matched_list w' = [testA; testB]).
Proof.
  destruct (proj1 override_policy sample_fs 0%nat "flat.yaml" "all" "/dv"
              [testA; testD] [] testB 1 7 init_world
              eq_refl eq_refl eq_refl eq_refl eq_refl) as [Hpos Hzero].
  split.
  - destruct (Hpos eq_refl) as (w' & E & Hm & _). exists w'.
    split; [exact E|exact Hm].
  - destruct Hzero as (w' & E & Hm & _). exists w'.
    split; [exact E|exact Hm].
Defined.

(** C5: an import is expanded where it stands: with the root list
    [A; import sub; B] and [sub] holding [C], all with positive counts,
    resolving ["all"] appends [A; C; B] in that order (each after the
    override step).  The list [sub] is the one at the import's path with the
    root directory, a path without backslash, put in for the placeholder. *)
Theorem import_expansion_in_place (fs : string -> file) (fuel : nat)
    (root_list sub_path riscv_dv_root : string) (n : Z)
    (A B C imp : entry) (w : world) :
  fs root_list = Document [A; imp; B] ->
  imp !! "import" = Some (VStr sub_path) ->
  plain_repl riscv_dv_root = true ->
  fs (re_sub "<riscv_dv_root>" riscv_dv_root sub_path) = Document [C] ->
  forallb is_test_node [A; B; C] = true ->
  forallb positive_count [A; B; C] = true ->
  exists w',
    process_regression_list fs (S (S fuel)) root_list "all" n
                            riscv_dv_root w = (Returns tt, w') /\
    matched_list w' =
      matched_list w ++
      [apply_override n A; apply_override n C; apply_override n B].
Proof.
  intros Hroot Himp _ Hsub Hnodes Hpos.
  cbn [forallb] in Hnodes, Hpos.
  apply andb_prop in Hnodes as [HA Hnodes].
  apply andb_prop in Hnodes as [HB Hnodes].
  apply andb_prop in Hnodes as [HC _].
  apply andb_prop in Hpos as [PA Hpos].
  apply andb_prop in Hpos as [PB Hpos].
  apply andb_prop in Hpos as [PC _].
  assert (Hone : forall recurse e,
             is_test_node e = true -> positive_count e = true ->
             resolves (process_entry recurse "all" (split "," "all") n
                                     riscv_dv_root e)
                      [apply_override n e]).
  { intros recurse e He Pe. rewrite process_entry_test_node by exact He.
    pose proof (resolves_process_test "all" n e He) as H.
    now rewrite (selected_all e He), Pe in H. }
  apply (resolves_list fs (S fuel) root_list "all" n riscv_dv_root
           [A; imp; B]); [exact Hroot|].
  apply (resolves_for_each_cons _ A [imp; B] [apply_override n A]
           [apply_override n C; apply_override n B]); [now apply Hone|].
  apply (resolves_for_each_cons _ imp [B] [apply_override n C]
           [apply_override n B]).
  - rewrite (process_entry_import _ "all" _ n riscv_dv_root imp sub_path Himp).
    apply (resolves_list fs fuel _ "all" n riscv_dv_root [C]); [exact Hsub|].
    apply (resolves_for_each_cons _ C [] [apply_override n C] []);
      [now apply Hone|apply resolves_ret].
  - apply (resolves_for_each_cons _ B [] [apply_override n B] []);
      [now apply Hone|apply resolves_ret].
Qed.


Lemma import_expansion_in_place_witness :
  exists w',
    process_regression_list sample_fs 2 "testlist.yaml" "all" 0 "/dv"
                            init_world = (Returns tt, w') /\
    matched_list w' = [testA; testC; testB].
Proof.
  exact (import_expansion_in_place sample_fs 0%nat "testlist.yaml"
           "<riscv_dv_root>/yaml/base_testlist.yaml" "/dv" 0
           testA testB testC import_base init_world
           eq_refl eq_refl eq_refl eq_refl eq_refl eq_refl).
Defined.

(** C10: a call only appends to the accumulator: whatever the lists hold and
    however the call ends, the accumulator afterwards is the accumulator
    before, unchanged and in the same order, followed by the entries the
    call matched. *)
Theorem resolver_only_appends (fs : string -> file) (fuel : nat)
    (testlist test : string) (n : Z) (riscv_dv_root : string) (w : world) :
  exists new,
    matched_list
      (process_regression_list fs fuel testlist test n riscv_dv_root w).2 =
    matched_list w ++ new.
Proof.
  destruct (appends_process_regression_list fs fuel testlist test n
              riscv_dv_root w) as (new & E & _).
  now exists new.
Qed.

(** * Further properties *)

(** ** When [run_cmd] exits *)

Lemma run_cmd_hangs_outcome spawn cmd timeout_s exit_on_error chk w :
  spawn (spawned w) = Starts Hangs ->
  (run_cmd spawn cmd timeout_s exit_on_error chk w).1 = Returns "".
Proof.
  intros Hspawn. unfold run_cmd. py_eval. rewrite Hspawn. py_eval.
  reflexivity.
Qed.

Lemma run_cmd_launch_outcome spawn cmd timeout_s exit_on_error chk w e :
  spawn (spawned w) = FailsWith e ->
  exists e', (run_cmd spawn cmd timeout_s exit_on_error chk w).1 = Raises e'.
Proof.
  intros Hspawn. unfold run_cmd. py_eval. rewrite Hspawn.
  destruct e; py_eval; eauto.
Qed.

(** X1: [run_cmd] ends in [sys.exit] in one case only: a strictly positive
    return code is found while both [check_return_code] and
    [exit_on_error] are set; the code is then [RET_FAIL].  The return code
    is found either by [communicate], for a command that is over in time,
    or by the poll of [kill], for a child that is over when the time is up.
    A child killed while running, a launch that raises, a return code that
    is not positive or an unset flag never exits. *)
Theorem run_cmd_exits_iff (spawn : nat -> launch_result) (cmd : string)
    (timeout_s exit_on_error : Z) (check_return_code : bool) (w : world)
    (code : Z) :
  (run_cmd spawn cmd timeout_s exit_on_error check_return_code w).1 =
    SysExit code <->
  code = RET_FAIL /\ check_return_code = true /\
  truthy exit_on_error = true /\
  exists rc,
    (0 < rc)%Z /\
    ((exists out, spawn (spawned w) = Starts (Completes out rc)) \/
     spawn (spawned w) = Starts (Lingers rc)).
Proof.
  destruct (spawn (spawned w)) as [[out rc| |rc]|e] eqn:Hspawn.
  - rewrite (run_cmd_completes spawn cmd timeout_s exit_on_error
               check_return_code out rc w Hspawn).
    destruct check_return_code, (Z.ltb_spec 0 rc),
      (truthy exit_on_error); cbn [andb fst]; split;
      try discriminate;
      try (intros (_ & H1 & H2 & r & H3 & [(o & H4)|H4]);
           first [discriminate | injection H4 as -> ->; lia]).
    + intros [= <-]. repeat split. exists rc. split; [assumption|].
      left. now exists out.
    + now intros (-> & _).
  - rewrite (run_cmd_hangs_outcome spawn cmd timeout_s exit_on_error
               check_return_code w Hspawn).
    split; [discriminate|].
    intros (_ & _ & _ & r & _ & [(o & H)|H]); discriminate.
  - rewrite (run_cmd_lingers spawn cmd timeout_s exit_on_error
               check_return_code rc w Hspawn).
    destruct check_return_code, (Z.ltb_spec 0 rc),
      (truthy exit_on_error); cbn [andb fst]; split;
      try discriminate;
      try (intros (_ & H1 & H2 & r & H3 & [(o & H4)|H4]);
           first [discriminate | injection H4 as ->; lia]).
    + intros [= <-]. repeat split. exists rc. split; [assumption|].
      now right.
    + now intros (-> & _).
  - destruct (run_cmd_launch_outcome spawn cmd timeout_s exit_on_error
                check_return_code w e Hspawn) as (e' & ->).
    split; [discriminate|].
    intros (_ & _ & _ & r & _ & [(o & H)|H]); discriminate.
Qed.

(** ** More on the parallel executor *)

Lemma world_ext (w1 w2 : world) :
  trace w1 = trace w2 ->
  procs w1 = procs w2 ->
  spawned w1 = spawned w2 ->
  matched_list w1 = matched_list w2 ->
  w1 = w2.
Proof. destruct w1, w2. cbn. now intros -> -> -> ->. Qed.

(** Two outcome-and-world pairs with the same outcome, field by field. *)
Ltac world_fields :=
  f_equal; apply world_ext; py_simpl; rewrite <- ?app_assoc; reflexivity.

Ltac par_eval :=
  repeat first
    [ progress cbn [trace procs spawned matched_list emit set_procs
                    count_spawn fst snd behaviour returncode killed
                    is_TimeoutExpired rc_arg app from_option
                    fresh polled settle lookup list_lookup fmap list_fmap
                    andb]
    | rewrite list_lookup_middle by reflexivity
    | rewrite insert_middle
    | rewrite rc_is_error_Some ].

(** The state in which the second loop starts when every launch succeeds. *)
Lemma run_parallel_cmd_launched spawn c cs bs timeout_s exit_on_error chk w :
  Forall2 (fun i b => spawn i = Starts b)
          (seq (spawned w) (S (length cs))) bs ->
  run_parallel_cmd spawn (c :: cs) timeout_s exit_on_error chk w =
    (wait_all (c :: cs) (seq (length (procs w)) (S (length cs)))
              (Some (default c (last cs))) timeout_s exit_on_error chk ;;
     ret tt)
      {| trace := trace w ++
           ((fun c => EvPopen ("exec " +:+ c) "/bin/bash") <$> c :: cs);
         procs := procs w ++ (fresh <$> bs);
         spawned := spawned w + S (length cs);
         matched_list := matched_list w |}.
Proof.
  intros Hbs. unfold run_parallel_cmd, launch_all. unfold bind at 1.
  rewrite (launch_loop_starts spawn (c :: cs) bs) by exact Hbs.
  cbn [app length from_option]. rewrite last_cons.
  now destruct (last cs).
Qed.

(** X2: with [exit_on_error] set, a first command that fails ends the batch in
    [sys.exit(RET_FAIL)] after the first round: no other child is waited on
    or killed, and the error record names the last command of the list,
    which [cmd] still holds from the launch loop. *)
Theorem run_parallel_cmd_first_error_exits (spawn : nat -> launch_result)
    (c : string) (cs : list string) (bs : list wait_result)
    (out : string) (rc timeout_s exit_on_error : Z) (w : world) :
  spawn (spawned w) = Starts (Completes out rc) ->
  (0 < rc)%Z ->
  truthy exit_on_error = true ->
  Forall2 (fun i b => spawn i = Starts b)
          (seq (S (spawned w)) (length cs)) bs ->
  run_parallel_cmd spawn (c :: cs) timeout_s exit_on_error true w =
    (SysExit RET_FAIL,
     {| trace := trace w ++
          ((fun c => EvPopen ("exec " +:+ c) "/bin/bash") <$> c :: cs) ++
          [EvLog INFO "Command progress: %d/%d"
                 [VInt 0; VInt (Z.of_nat (S (length cs)))];
           EvLog DEBUG "Waiting for command: %s" [VStr c];
           EvLog INFO out [];
           EvLog ERROR "ERROR return code: %d, cmd:%s"
                 [VInt rc; VStr (default c (last cs))]];
        procs := procs w ++
          {| behaviour := Completes out rc; returncode := Some rc;
             killed := false |} :: (fresh <$> bs);
        spawned := spawned w + S (length cs);
        matched_list := matched_list w |}).
Proof.
  intros Hfirst Hrc Hexit Hrest.
  rewrite (run_parallel_cmd_launched spawn c cs (Completes out rc :: bs)).
  2:{ cbn [length seq]. now constructor. }
  unfold wait_all. rewrite length_seq. cbn [seq for_each].
  unfold wait_child. cbn [length]. rewrite length_seq. py_unfold.
  par_eval. apply Z.ltb_lt in Hrc. rewrite Hrc, Hexit. par_eval.
  world_fields.
Qed.

Lemma run_parallel_cmd_first_error_exits_witness :
  run_parallel_cmd first_fails ["false"; "echo ok"] 999 1 true init_world =
    (SysExit RET_FAIL,
     {| trace :=
          [EvPopen "exec false" "/bin/bash";
           EvPopen "exec echo ok" "/bin/bash";
           EvLog INFO "Command progress: %d/%d" [VInt 0; VInt 2];
           EvLog DEBUG "Waiting for command: %s" [VStr "false"];
           EvLog INFO "boom" [];
           EvLog ERROR "ERROR return code: %d, cmd:%s"
                 [VInt 2; VStr "echo ok"]];
        procs :=
          [{| behaviour := Completes "boom" 2; returncode := Some 2;
              killed := false |};
           {| behaviour := Completes "ok" 0; returncode := None;
              killed := false |}];
        spawned := 2;
        matched_list := [] |}).
Proof.
  apply (run_parallel_cmd_first_error_exits first_fails "false" ["echo ok"]
           [Completes "ok" 0] "boom" 2 999 1 init_world eq_refl eq_refl
           eq_refl).
  repeat constructor.
Defined.


Lemma lookup_after_one {A} (l r : list A) (a b : A) :
  (l ++ a :: b :: r) !! S (length l) = Some b.
Proof. induction l as [|x l IH]; [reflexivity|exact IH]. Qed.

Lemma insert_after_one {A} (l r : list A) (a b y : A) :
  <[S (length l) := y]> (l ++ a :: b :: r) = l ++ a :: y :: r.
Proof.
  induction l as [|x l IH]; [reflexivity|]. cbn [app length].
  change (<[S (S (length l)) := y]> (x :: (l ++ a :: b :: r)))
    with (x :: <[S (length l) := y]> (l ++ a :: b :: r)).
  now rewrite IH.
Qed.



(** X20: a second command whose shell is already over when its time is up,
    with a strictly positive return code, ends a batch that checks return
    codes and has [exit_on_error] set: the poll of [kill] stores the code,
    no signal is sent, the output of the first command is logged once more
    and the call exits with [RET_FAIL]. *)
Theorem run_parallel_cmd_lingering_exit (spawn : nat -> launch_result)
    (c1 c2 out : string) (rc rc2 timeout_s exit_on_error : Z) (w : world) :
  spawn (spawned w) = Starts (Completes out rc) ->
  spawn (S (spawned w)) = Starts (Lingers rc2) ->
  (rc <= 0)%Z ->
  (0 < rc2)%Z ->
  truthy exit_on_error = true ->
  run_parallel_cmd spawn [c1; c2] timeout_s exit_on_error true w =
    (SysExit RET_FAIL,
     {| trace := trace w ++
          [EvPopen ("exec " +:+ c1) "/bin/bash";
           EvPopen ("exec " +:+ c2) "/bin/bash";
           EvLog INFO "Command progress: %d/%d" [VInt 0; VInt 2];
           EvLog DEBUG "Waiting for command: %s" [VStr c1];
           EvSystem "stty sane";
           EvLog DEBUG out [];
           EvLog INFO "Command progress: %d/%d" [VInt 1; VInt 2];
           EvLog DEBUG "Waiting for command: %s" [VStr c2];
           EvLog ERROR "Timeout[%ds]: %s" [VInt timeout_s; VStr c2];
           EvLog INFO out [];
           EvLog ERROR "ERROR return code: %d, cmd:%s" [VInt rc2; VStr c2]];
        procs := procs w ++
          [{| behaviour := Completes out rc; returncode := Some rc;
              killed := false |};
           {| behaviour := Lingers rc2; returncode := Some rc2;
              killed := false |}];
        spawned := spawned w + 2;
        matched_list := matched_list w |}).
Proof.
  intros H1 H2 Hrc Hrc2 Hexit.
  rewrite (run_parallel_cmd_launched spawn c1 [c2]
             [Completes out rc; Lingers rc2]).
  2:{ cbn [length seq]. repeat constructor; assumption. }
  unfold wait_all. cbn [length seq for_each last default from_option].
  unfold wait_child. cbn [length]. py_unfold. par_eval.
  destruct (Z.ltb_spec 0 rc); [lia|]. par_eval.
  rewrite lookup_after_one. par_eval.
  rewrite lookup_after_one. par_eval.
  rewrite insert_after_one, lookup_after_one. par_eval.
  destruct (Z.ltb_spec 0 rc2); [|lia]. par_eval. rewrite Hexit.
  world_fields.
Qed.

Lemma run_parallel_cmd_lingering_exit_witness :
  run_parallel_cmd second_lingers ["echo ok"; "sleep 3 & false"] 1 1 true
                   init_world =
    (SysExit RET_FAIL,
     {| trace :=
          [EvPopen "exec echo ok" "/bin/bash";
           EvPopen "exec sleep 3 & false" "/bin/bash";
           EvLog INFO "Command progress: %d/%d" [VInt 0; VInt 2];
           EvLog DEBUG "Waiting for command: %s" [VStr "echo ok"];
           EvSystem "stty sane";
           EvLog DEBUG "ok" [];
           EvLog INFO "Command progress: %d/%d" [VInt 1; VInt 2];
           EvLog DEBUG "Waiting for command: %s" [VStr "sleep 3 & false"];
           EvLog ERROR "Timeout[%ds]: %s" [VInt 1; VStr "sleep 3 & false"];
           EvLog INFO "ok" [];
           EvLog ERROR "ERROR return code: %d, cmd:%s"
                 [VInt 1; VStr "sleep 3 & false"]];
        procs :=
          [{| behaviour := Completes "ok" 0; returncode := Some 0;
              killed := false |};
           {| behaviour := Lingers 1; returncode := Some 1;
              killed := false |}];
        spawned := 2;
        matched_list := [] |}).
Proof.
  apply (run_parallel_cmd_lingering_exit second_lingers "echo ok"
           "sleep 3 & false" "ok" 0 1 1 1 init_world eq_refl eq_refl).
  - vm_compute. discriminate.
  - reflexivity.
  - reflexivity.
Defined.

Lemma for_each_app {A S} (l1 l2 : list A) (body : S -> A -> M S) :
  forall s w,
    for_each (l1 ++ l2) body s w =
    bind (for_each l1 body s) (for_each l2 body) w.
Proof.
  induction l1 as [|x l1 IH]; intros s w; [reflexivity|].
  cbn [app for_each]. unfold bind.
  destruct (body s x w) as [[s'| | |] w']; try reflexivity.
  rewrite IH. reflexivity.
Qed.

(** X4: a launch that raises ends the batch there: the exception leaves
    [run_parallel_cmd], the commands after it are not launched, and the
    children already launched are neither waited on nor killed. *)
Theorem run_parallel_cmd_launch_failure (spawn : nat -> launch_result)
    (pre : list string) (c : string) (post : list string)
    (bs : list wait_result) (e : exn) (timeout_s exit_on_error : Z)
    (check_return_code : bool) (w : world) :
  Forall2 (fun i b => spawn i = Starts b)
          (seq (spawned w) (length pre)) bs ->
  spawn (spawned w + length pre)%nat = FailsWith e ->
  run_parallel_cmd spawn (pre ++ c :: post) timeout_s exit_on_error
                   check_return_code w =
    (Raises e,
     {| trace := trace w ++
          ((fun c => EvPopen ("exec " +:+ c) "/bin/bash") <$> pre ++ [c]);
        procs := procs w ++ (fresh <$> bs);
        spawned := S (spawned w + length pre);
        matched_list := matched_list w |}).
Proof.
  intros Hpre Hfail. unfold run_parallel_cmd, launch_all.
  unfold bind at 1. rewrite for_each_app. unfold bind at 1.
  rewrite (launch_loop_starts spawn pre bs) by exact Hpre.
  cbn [for_each]. unfold bind at 1, launch at 1. py_unfold. py_simpl.
  rewrite Hfail. py_simpl. rewrite fmap_app. world_fields.
Qed.

Lemma run_parallel_cmd_launch_failure_witness :
  run_parallel_cmd third_fails ["make a"; "make b"; "make c"; "make d"]
                   999 0 true init_world =
    (Raises OSError,
     {| trace :=
          [EvPopen "exec make a" "/bin/bash";
           EvPopen "exec make b" "/bin/bash";
           EvPopen "exec make c" "/bin/bash"];
        procs :=
          [{| behaviour := Completes "ok" 0; returncode := None;
              killed := false |};
           {| behaviour := Completes "ok" 0; returncode := None;
              killed := false |}];
        spawned := 3;
        matched_list := [] |}).
Proof.
  apply (run_parallel_cmd_launch_failure third_fails ["make a"; "make b"]
           "make c" ["make d"] [Completes "ok" 0; Completes "ok" 0] OSError
           999 0 true init_world).
  - repeat constructor.
  - reflexivity.
Defined.







(** ** Exit codes *)

Section ExitFail.

Lemma exit_fail_never {A} (m : M A) :
  (forall w c, (m w).1 <> SysExit c) -> exit_fail m.
Proof. intros H w c Hc. now apply H in Hc. Qed.

Lemma exit_fail_ret {A} (a : A) : exit_fail (ret a).
Proof. now apply exit_fail_never. Qed.

Lemma exit_fail_raise {A} e : exit_fail (@raise A e).
Proof. now apply exit_fail_never. Qed.

Lemma exit_fail_sys_exit {A} : exit_fail (@sys_exit A RET_FAIL).
Proof. intros w c [= <-]. reflexivity. Qed.

Lemma exit_fail_log lvl fmt args : exit_fail (log lvl fmt args).
Proof. now apply exit_fail_never. Qed.

Lemma exit_fail_os_system c : exit_fail (os_system c).
Proof. now apply exit_fail_never. Qed.

Lemma exit_fail_load_local {A} name (v : option A) :
  exit_fail (load_local name v).
Proof. apply exit_fail_never. intros w c. now destruct v. Qed.

Lemma exit_fail_index {A} (l : list A) i : exit_fail (index l i).
Proof.
  apply exit_fail_never. intros w c. unfold index. now destruct (l !! i).
Qed.

Lemma exit_fail_Popen spawn c exe : exit_fail (Popen spawn c exe).
Proof.
  apply exit_fail_never. intros w code. unfold Popen.
  now destruct (spawn (spawned w)).
Qed.

Lemma exit_fail_communicate ps t : exit_fail (communicate ps t).
Proof.
  apply exit_fail_never. intros w c. unfold communicate.
  destruct (procs w !! ps) as [p|]; [|easy].
  destruct (behaviour p); [easy| |]; now destruct t.
Qed.

Lemma exit_fail_kill ps : exit_fail (kill ps).
Proof.
  apply exit_fail_never. intros w c. unfold kill.
  destruct (procs w !! ps) as [p|]; [|easy]. now destruct (polled p).
Qed.

Lemma exit_fail_get_returncode ps : exit_fail (get_returncode ps).
Proof.
  apply exit_fail_never. intros w c. unfold get_returncode.
  now destruct (procs w !! ps).
Qed.

Lemma exit_fail_getitem d key : exit_fail (getitem d key).
Proof.
  apply exit_fail_never. intros w c. unfold getitem. now destruct (d !! key).
Qed.

Lemma exit_fail_gt_zero v : exit_fail (gt_zero v).
Proof. apply exit_fail_never. intros w c. now destruct v. Qed.

Lemma exit_fail_as_str v : exit_fail (as_str v).
Proof. apply exit_fail_never. intros w c. now destruct v. Qed.

Lemma exit_fail_append e : exit_fail (append e).
Proof. now apply exit_fail_never. Qed.

Lemma exit_fail_bind {A B} (m : M A) (k : A -> M B) :
  exit_fail m -> (forall a, exit_fail (k a)) -> exit_fail (bind m k).
Proof.
  intros Hm Hk w c. unfold bind. specialize (Hm w c).
  destruct (m w) as [[a| | |] w']; cbn [fst] in *; try easy.
  - apply Hk.
  - intros [= ->]. now apply Hm.
Qed.

Lemma exit_fail_try {A} (body : M A) handler :
  exit_fail body ->
  (forall e h, handler e = Some h -> exit_fail h) ->
  exit_fail (try_except body handler).
Proof.
  intros Hb Hh w c. unfold try_except. specialize (Hb w c).
  destruct (body w) as [[a| |e|] w']; cbn [fst] in *;
    try assumption; try easy.
  destruct (handler e) as [h|] eqn:He; [|easy]. now apply (Hh e h He).
Qed.

Lemma exit_fail_if {A} (b : bool) (m1 m2 : M A) :
  exit_fail m1 -> exit_fail m2 -> exit_fail (if b then m1 else m2).
Proof. now destruct b. Qed.

Lemma exit_fail_for_each {A S} (l : list A) (body : S -> A -> M S) :
  (forall s x, exit_fail (body s x)) ->
  forall s, exit_fail (for_each l body s).
Proof.
  intros Hbody. induction l as [|x l IH]; intros s; cbn [for_each].
  - apply exit_fail_ret.
  - apply exit_fail_bind; auto.
Qed.

End ExitFail.

Create HintDb exits.

#[local] Hint Resolve exit_fail_ret exit_fail_raise
  exit_fail_sys_exit exit_fail_log exit_fail_os_system exit_fail_load_local
  exit_fail_index exit_fail_Popen exit_fail_communicate exit_fail_kill
  exit_fail_get_returncode exit_fail_getitem exit_fail_gt_zero
  exit_fail_as_str exit_fail_append : exits.

Ltac exits :=
  repeat first
    [ apply exit_fail_bind; [|intros ?]
    | apply exit_fail_if
    | apply exit_fail_try;
      [|intros ? ? Hh;
        match type of Hh with
        | (if ?c then _ else _) = _ => destruct c; [|discriminate]
        | (match ?e with _ => _ end) = _ => destruct e; try discriminate
        end; injection Hh as <-]
    | solve [unfold logging_debug, logging_info, logging_error,
               logging_warning; auto with exits] ].

Lemma exit_fail_run_cmd spawn cmd timeout_s exit_on_error chk :
  exit_fail (run_cmd spawn cmd timeout_s exit_on_error chk).
Proof. unfold run_cmd. exits. Qed.

Lemma exit_fail_run_parallel_cmd spawn cmd_list timeout_s exit_on_error chk :
  exit_fail (run_parallel_cmd spawn cmd_list timeout_s exit_on_error chk).
Proof.
  unfold run_parallel_cmd, launch_all.
  apply exit_fail_bind.
  - apply exit_fail_for_each. intros s x. unfold launch. exits.
  - intros [children cmd]. apply exit_fail_bind; [|intros; exits].
    apply exit_fail_for_each. intros s x. unfold wait_child. exits.
Qed.

Lemma exit_fail_read_yaml fs path : exit_fail (read_yaml fs path).
Proof. unfold read_yaml. destruct (fs path); exits. Qed.

Lemma exit_fail_process_test test mult_test n e :
  exit_fail (process_test test mult_test n e).
Proof. unfold process_test. exits. Qed.

Lemma exit_fail_process_regression_list fs fuel :
  forall testlist test n root,
    exit_fail (process_regression_list fs fuel testlist test n root).
Proof.
  induction fuel as [|fuel IH]; intros testlist test n root.
  - apply exit_fail_raise.
  - cbn [process_regression_list].
    apply exit_fail_bind; [exits|intros _].
    apply exit_fail_bind; [apply exit_fail_read_yaml|intros doc].
    apply exit_fail_for_each. intros _ e. unfold process_entry.
    apply exit_fail_if; [|apply exit_fail_process_test].
    apply exit_fail_bind; [exits|intros v].
    apply exit_fail_bind; [exits|intros path]. apply IH.
Qed.

Lemma exit_fail_get_env_var environ var :
  exit_fail (get_env_var environ var).
Proof.
  unfold get_env_var. apply exit_fail_try.
  - destruct (environ !! var); exits.
  - intros e h Hh. destruct e; try discriminate. injection Hh as <-. exits.
Qed.

(** X6: whenever one of the functions of the file ends the process, the exit
    code is [RET_FAIL]: [RET_FATAL] and [RET_SUCCESS] are never used. *)
Theorem exit_code_is_RET_FAIL (code : Z) (w : world) :
  (forall spawn cmd timeout_s exit_on_error chk,
     (run_cmd spawn cmd timeout_s exit_on_error chk w).1 = SysExit code ->
     code = RET_FAIL) /\
  (forall spawn cmd_list timeout_s exit_on_error chk,
     (run_parallel_cmd spawn cmd_list timeout_s exit_on_error chk w).1 =
       SysExit code ->
     code = RET_FAIL) /\
  (forall fs fuel testlist test n root,
     (process_regression_list fs fuel testlist test n root w).1 =
       SysExit code ->
     code = RET_FAIL) /\
  (forall fs path,
     (read_yaml fs path w).1 = SysExit code -> code = RET_FAIL) /\
  (forall environ var,
     (get_env_var environ var w).1 = SysExit code -> code = RET_FAIL).
Proof.
  repeat split; intros.
  - eapply exit_fail_run_cmd; eauto.
  - eapply exit_fail_run_parallel_cmd; eauto.
  - eapply exit_fail_process_regression_list; eauto.
  - eapply exit_fail_read_yaml; eauto.
  - eapply exit_fail_get_env_var; eauto.
Qed.

Lemma exit_code_is_RET_FAIL_witness :
  (get_env_var ∅ "RISCV_GCC" init_world).1 = SysExit 1 /\ 1%Z = RET_FAIL.
Proof.
  split; [reflexivity|].
  exact (proj2 (proj2 (proj2 (proj2
           (exit_code_is_RET_FAIL 1 init_world)))) ∅ "RISCV_GCC" eq_refl).
Defined.

(** ** Logging level and seed *)

Lemma emitted_app cfg t1 t2 :
  emitted cfg (t1 ++ t2) = emitted cfg t1 ++ emitted cfg t2.
Proof. apply List.filter_app. Qed.

(** X7: under [setup_logging(False)] a command that succeeds leaves no log
    record at all, since [run_cmd] logs the command and its output at
    [DEBUG]; under [setup_logging(True)] both are logged. *)
Theorem run_cmd_success_is_silent (spawn : nat -> launch_result)
    (cmd : string) (timeout_s exit_on_error : Z) (check_return_code : bool)
    (out : string) (rc : Z) (w : world) :
  spawn (spawned w) = Starts (Completes out rc) ->
  (rc <= 0)%Z ->
  let w' :=
    (run_cmd spawn cmd timeout_s exit_on_error check_return_code w).2 in
  emitted (setup_logging false) (trace w') =
    emitted (setup_logging false) (trace w) /\
  emitted (setup_logging true) (trace w') =
    emitted (setup_logging true) (trace w) ++
    [EvLog DEBUG cmd []; EvLog DEBUG out []].
Proof.
  intros Hspawn Hrc.
  rewrite (run_cmd_completes spawn cmd timeout_s exit_on_error
             check_return_code out rc w Hspawn).
  destruct (Z.ltb_spec 0 rc); [lia|]. rewrite andb_false_r.
  cbv zeta. py_simpl. rewrite !emitted_app. cbn.
  rewrite !app_nil_r, <- app_assoc. now split.
Qed.

Lemma run_cmd_success_is_silent_witness :
  emitted (setup_logging false)
    (trace (run_cmd (fun _ => Starts (Completes "done" 0)) "make" 999 1 true
                    init_world).2) = [] /\
  emitted (setup_logging true)
    (trace (run_cmd (fun _ => Starts (Completes "done" 0)) "make" 999 1 true
                    init_world).2) =
    [EvLog DEBUG "make" []; EvLog DEBUG "done" []].
Proof.
  apply (run_cmd_success_is_silent (fun _ => Starts (Completes "done" 0))
           "make" 999 1 true "done" 0 init_world eq_refl).
  vm_compute. discriminate.
Defined.

(** X8: a seed that is not negative is used as given, however large; a
    negative one is replaced by the 32 random bits, so the result is never
    negative, and asking again with the result changes nothing. *)
Theorem get_seed_range (getrandbits32 seed : Z) :
  (0 <= getrandbits32 < 2 ^ 32)%Z ->
  (0 <= get_seed getrandbits32 seed)%Z /\
  ((0 <= seed)%Z -> get_seed getrandbits32 seed = seed) /\
  ((seed < 0)%Z -> get_seed getrandbits32 seed = getrandbits32) /\
  (forall again, get_seed again (get_seed getrandbits32 seed) =
                 get_seed getrandbits32 seed).
Proof.
  intros Hr. unfold get_seed.
  destruct (Z.leb_spec 0 seed) as [Hs|Hs].
  - repeat split; try lia. intros again.
    now destruct (Z.leb_spec 0 seed); [|lia].
  - repeat split; try lia. intros again.
    now destruct (Z.leb_spec 0 getrandbits32); [|lia].
Qed.

Lemma get_seed_range_witness :
  (0 <= get_seed 305419896 (-1))%Z /\
  ((0 <= -1)%Z -> get_seed 305419896 (-1) = (-1)%Z) /\
  ((-1 < 0)%Z -> get_seed 305419896 (-1) = 305419896%Z) /\
  (forall again, get_seed again (get_seed 305419896 (-1)) =
                 get_seed 305419896 (-1)).
Proof.
  apply (get_seed_range 305419896 (-1)). split; vm_compute; congruence.
Defined.

(** ** Selection by name *)

Lemma split_nonempty sep s : split sep s <> [].
Proof.
  destruct s as [|c s]; [discriminate|]. cbn [split].
  destruct (Ascii.eqb c sep); [discriminate|].
  now destruct (split sep s).
Qed.

(** Splitting distributes over joining with the separator. *)
Lemma split_join sep a b :
  split sep (a +:+ String sep b) = split sep a ++ split sep b.
Proof.
  induction a as [|c a IH]; simpl.
  - now rewrite Ascii.eqb_refl.
  - rewrite IH. destruct (Ascii.eqb c sep); [reflexivity|].
    pose proof (split_nonempty sep a) as Hne.
    now destruct (split sep a).
Qed.

Lemma split_free sep s : free_of sep s = true -> split sep s = [s].
Proof.
  induction s as [|c s IH]; [reflexivity|]. cbn [free_of split].
  intros [Hc Hs]%andb_prop. apply negb_true_iff in Hc. rewrite Hc.
  now rewrite (IH Hs).
Qed.

Lemma value_in_app v l1 l2 :
  value_in v (l1 ++ l2) = value_in v l1 || value_in v l2.
Proof.
  destruct v as [s| |]; try reflexivity. cbn [value_in].
  apply eq_true_iff_eq.
  rewrite orb_true_iff, !bool_decide_eq_true, elem_of_app. tauto.
Qed.

(** X9: the sentinel ["all"] works only as the whole selection.  In a
    comma-separated selection each piece is a plain name, ["all"] included:
    an entry is selected exactly when its name is one of the pieces. *)
Theorem selection_with_comma (a b : string) (e : entry) :
  selected (a +:+ "," +:+ b) e = named_in a e || named_in b e.
Proof.
  unfold selected, named_in. destruct (e !! "test") as [name|];
    [|reflexivity].
  change (a +:+ "," +:+ b) with (a +:+ String "," b).
  rewrite split_join, value_in_app.
  replace (String.eqb (a +:+ String "," b) "all") with false;
    [now rewrite orb_false_r|].
  symmetry. apply String.eqb_neq. intros Heq.
  apply (f_equal (fun s => length (split "," s))) in Heq.
  rewrite split_join, length_app in Heq. cbn in Heq.
  pose proof (split_nonempty "," a). pose proof (split_nonempty "," b).
  destruct (split "," a), (split "," b); cbn in Heq; try congruence; lia.
Qed.

(** A selection without a comma, other than ["all"], selects the entries
    of that very name and no other. *)
Lemma selected_single t e :
  free_of "," t = true ->
  String.eqb t "all" = false ->
  selected t e = has_name t e.
Proof.
  intros Hfree Hall. unfold selected, has_name.
  rewrite (split_free _ _ Hfree), Hall.
  destruct (e !! "test") as [[s| |]|]; cbn [value_in orb]; try reflexivity.
  rewrite orb_false_r. apply eq_true_iff_eq.
  rewrite bool_decide_eq_true, list_elem_of_singleton, String.eqb_eq.
  reflexivity.
Qed.

(** ** Resolution that stops early, and imports in general *)

Lemma resolves_ends m new : resolves m new <-> ends m (Returns tt) new.
Proof. reflexivity. Qed.

Lemma ends_for_each_cons {A} (body : unit -> A -> M unit) x l o new1 new2 :
  ends (body tt x) (Returns tt) new1 ->
  ends (for_each l body tt) o new2 ->
  ends (for_each (x :: l) body tt) o (new1 ++ new2).
Proof.
  intros H1 H2 w. destruct (H1 w) as (w1 & E1 & M1).
  destruct (H2 w1) as (w2 & E2 & M2). exists w2.
  cbn [for_each]. unfold bind. rewrite E1, E2, M2, M1.
  now rewrite app_assoc.
Qed.

Lemma ends_for_each_stop {A} (body : unit -> A -> M unit) x l o new :
  stops o = true ->
  ends (body tt x) o new ->
  ends (for_each (x :: l) body tt) o new.
Proof.
  intros Ho H w. destruct (H w) as (w1 & E1 & M1). exists w1.
  cbn [for_each]. unfold bind. rewrite E1.
  split; [|exact M1]. now destruct o.
Qed.

Lemma ends_for_each_app {A} (body : unit -> A -> M unit) l1 l2 o new1 new2 :
  ends (for_each l1 body tt) (Returns tt) new1 ->
  ends (for_each l2 body tt) o new2 ->
  ends (for_each (l1 ++ l2) body tt) o (new1 ++ new2).
Proof.
  intros H1 H2 w. destruct (H1 w) as (w1 & E1 & M1).
  destruct (H2 w1) as (w2 & E2 & M2). exists w2.
  rewrite for_each_app. unfold bind. rewrite E1, E2, M2, M1.
  now rewrite app_assoc.
Qed.

(** A list that loads ends as the loop over its nodes ends. *)
Lemma ends_list fs fuel testlist test n root doc o new :
  fs testlist = Document doc ->
  ends
    (for_each doc
       (fun _ entry =>
          process_entry
            (fun sub_list =>
               process_regression_list fs fuel sub_list test n root)
            test (split "," test) n root entry) tt) o new ->
  ends (process_regression_list fs (S fuel) testlist test n root) o new.
Proof.
  intros Hfs Hloop w. cbn [process_regression_list].
  unfold bind at 1. unfold logging_info, log.
  unfold bind at 1. unfold read_yaml. rewrite Hfs. unfold ret at 1.
  destruct (Hloop (emit (EvLog INFO
              "Processing regression test list : %s, test: %s"
              [VStr testlist; VStr test]) w)) as (w' & E & Hm).
  exists w'. split; [exact E|exact Hm].
Qed.

(** A path without a document ends the call before anything is appended. *)
Lemma ends_load_failure fs fuel testlist test n root o :
  load_failure (fs testlist) = Some o ->
  ends (process_regression_list fs (S fuel) testlist test n root) o [].
Proof.
  intros Hfail w. cbn [process_regression_list].
  unfold bind at 1. unfold logging_info, log.
  unfold bind at 1. unfold read_yaml.
  destruct (fs testlist) as [|exc|doc]; cbn [load_failure] in Hfail;
    injection Hfail as <- || discriminate;
    eexists; (split; [reflexivity|]); cbn; now rewrite app_nil_r.
Qed.

Lemma ends_import_free recurse test n root doc :
  forallb is_test_node doc = true ->
  ends
    (for_each doc
       (fun _ entry =>
          process_entry recurse test (split "," test) n root entry) tt)
    (Returns tt) (resolved test n doc).
Proof. apply resolves_import_free. Qed.

(** X10: a document without import nodes under any selection: the call returns
    and appends, in document order and after the override step, the entries
    that are selected and have a positive count. *)
Theorem resolve_selection_import_free (fs : string -> file) (fuel : nat)
    (testlist test : string) (n : Z) (riscv_dv_root : string)
    (doc : list entry) (w : world) :
  fs testlist = Document doc ->
  forallb is_test_node doc = true ->
  exists w',
    process_regression_list fs (S fuel) testlist test n riscv_dv_root w =
      (Returns tt, w') /\
    matched_list w' = matched_list w ++ resolved test n doc.
Proof.
  intros Hfs Hdoc.
  apply (ends_list fs fuel testlist test n riscv_dv_root doc); [exact Hfs|].
  now apply ends_import_free.
Qed.

Lemma resolve_selection_import_free_witness :
  exists w',
    process_regression_list sample_fs 1 "flat.yaml"
      "riscv_rand_instr_test,riscv_mmu_stress_test" 5 "/dv" init_world =
      (Returns tt, w') /\
    matched_list w' = [<["iterations" := VInt 5]> testB].
Proof.
  exact (resolve_selection_import_free sample_fs 0%nat "flat.yaml"
           "riscv_rand_instr_test,riscv_mmu_stress_test" 5 "/dv"
           [testA; testD; testB] init_world eq_refl eq_refl).
Defined.

(** X11: selecting one test by its name (no comma, not ["all"]) on a document
    without imports appends the entries of exactly that name that have a
    positive count, with the override applied; a name that no entry carries
    appends nothing. *)
Theorem resolve_one_name (fs : string -> file) (fuel : nat)
    (testlist t : string) (n : Z) (riscv_dv_root : string)
    (doc : list entry) (w : world) :
  fs testlist = Document doc ->
  forallb is_test_node doc = true ->
  free_of "," t = true ->
  String.eqb t "all" = false ->
  exists w',
    process_regression_list fs (S fuel) testlist t n riscv_dv_root w =
      (Returns tt, w') /\
    matched_list w' =
      matched_list w ++
      List.filter (fun e => has_name t e && positive_count e)
                  (apply_override n <$> doc).
Proof.
  intros Hfs Hdoc Hfree Hall.
  destruct (ends_list fs fuel testlist t n riscv_dv_root doc (Returns tt)
              (resolved t n doc) Hfs (ends_import_free _ t n _ doc Hdoc) w)
    as (w' & E & Hm).
  exists w'. split; [exact E|]. rewrite Hm. f_equal.
  unfold resolved. apply List.filter_ext. intros e.
  now rewrite (selected_single t e Hfree Hall).
Qed.

Lemma resolve_one_name_witness :
  exists w',
    process_regression_list sample_fs 1 "flat.yaml" "riscv_rand_instr_test"
                            0 "/dv" init_world = (Returns tt, w') /\
    matched_list w' = [testB].
Proof.
  exact (resolve_one_name sample_fs 0%nat "flat.yaml" "riscv_rand_instr_test"
           0 "/dv" [testA; testD; testB] init_world
           eq_refl eq_refl eq_refl eq_refl).
Defined.

(** X12: an import node is replaced by what its list resolves to, between what
    the nodes before it and the nodes after it resolve to, for lists of any
    length and any selection, the root directory being a path without
    backslash. *)
Theorem import_expansion_general (fs : string -> file) (fuel : nat)
    (testlist test sub_path riscv_dv_root : string) (n : Z)
    (pre post sub : list entry) (imp : entry) (w : world) :
  fs testlist = Document (pre ++ imp :: post) ->
  imp !! "import" = Some (VStr sub_path) ->
  plain_repl riscv_dv_root = true ->
  fs (re_sub "<riscv_dv_root>" riscv_dv_root sub_path) = Document sub ->
  forallb is_test_node (pre ++ sub ++ post) = true ->
  exists w',
    process_regression_list fs (S (S fuel)) testlist test n riscv_dv_root w =
      (Returns tt, w') /\
    matched_list w' =
      matched_list w ++
      resolved test n pre ++ resolved test n sub ++ resolved test n post.
Proof.
  intros Hfs Himp _ Hsub Hnodes.
  rewrite !forallb_app in Hnodes.
  apply andb_prop in Hnodes as [Hpre Hnodes].
  apply andb_prop in Hnodes as [Hs Hpost].
  apply (ends_list fs (S fuel) testlist test n riscv_dv_root
           (pre ++ imp :: post)); [exact Hfs|].
  apply ends_for_each_app; [now apply ends_import_free|].
  apply ends_for_each_cons; [|now apply ends_import_free].
  rewrite (process_entry_import _ test _ n riscv_dv_root imp sub_path Himp).
  apply (ends_list fs fuel _ test n riscv_dv_root sub); [exact Hsub|].
  now apply ends_import_free.
Qed.

Lemma import_expansion_general_witness :
  exists w',
    process_regression_list sample_fs 2 "testlist.yaml"
      "riscv_jump_stress_test,riscv_rand_instr_test" 0 "/dv" init_world =
      (Returns tt, w') /\
    matched_list w' = [testC; testB].
Proof.
  exact (import_expansion_general sample_fs 0%nat "testlist.yaml"
           "riscv_jump_stress_test,riscv_rand_instr_test"
           "<riscv_dv_root>/yaml/base_testlist.yaml" "/dv" 0
           [testA] [testB] [testC] import_base init_world
           eq_refl eq_refl eq_refl eq_refl eq_refl).
Defined.

(** X13: an import whose list cannot be loaded ends the whole resolution: with
    [FileNotFoundError] when the file is missing, with [sys.exit(RET_FAIL)]
    when it is not valid YAML.  The entries matched before the import stay
    in the accumulator, and the nodes after it are not looked at.  The file
    is the one at the import's path with the root directory, a path without
    backslash, put in for the placeholder. *)
Theorem import_load_failure (fs : string -> file) (fuel : nat)
    (testlist test sub_path riscv_dv_root : string) (n : Z)
    (pre post : list entry) (imp : entry) (o : outcome unit) (w : world) :
  fs testlist = Document (pre ++ imp :: post) ->
  forallb is_test_node pre = true ->
  imp !! "import" = Some (VStr sub_path) ->
  plain_repl riscv_dv_root = true ->
  load_failure (fs (re_sub "<riscv_dv_root>" riscv_dv_root sub_path)) =
    Some o ->
  exists w',
    process_regression_list fs (S (S fuel)) testlist test n riscv_dv_root w =
      (o, w') /\
    matched_list w' = matched_list w ++ resolved test n pre.
Proof.
  intros Hfs Hpre Himp _ Hfail.
  assert (Hstop : stops o = true).
  { destruct (fs (re_sub "<riscv_dv_root>" riscv_dv_root sub_path));
      cbn [load_failure] in Hfail; now inversion Hfail. }
  rewrite <- (app_nil_r (resolved test n pre)).
  apply (ends_list fs (S fuel) testlist test n riscv_dv_root
           (pre ++ imp :: post)); [exact Hfs|].
  apply ends_for_each_app; [now apply ends_import_free|].
  apply ends_for_each_stop; [exact Hstop|].
  rewrite (process_entry_import _ test _ n riscv_dv_root imp sub_path Himp).
  now apply ends_load_failure.
Qed.

Lemma import_load_failure_witness :
  exists w',
    process_regression_list cyclic_fs 2 "top.yaml" "all" 0 "/dv" init_world =
      (Raises FileNotFoundError, w') /\
    matched_list w' = [testA].
Proof.
  exact (import_load_failure cyclic_fs 0%nat "top.yaml" "all"
           "<riscv_dv_root>/missing.yaml" "/dv" 0 [testA] [testB]
           import_missing (Raises FileNotFoundError) init_world
           eq_refl eq_refl eq_refl eq_refl eq_refl).
Defined.

(** X14: a node with neither an ['import'] nor a ['test'] key ends the
    resolution with [KeyError], under every selection, ["all"] included,
    and whatever its iteration count; the entries matched before it stay in
    the accumulator. *)
Theorem missing_test_key_stops (fs : string -> file) (fuel : nat)
    (testlist test riscv_dv_root : string) (n : Z)
    (pre post : list entry) (bad : entry) (w : world) :
  fs testlist = Document (pre ++ bad :: post) ->
  forallb is_test_node pre = true ->
  bad !! "import" = None ->
  bad !! "test" = None ->
  exists w',
    process_regression_list fs (S fuel) testlist test n riscv_dv_root w =
      (Raises (KeyError "test"), w') /\
    matched_list w' = matched_list w ++ resolved test n pre.
Proof.
  intros Hfs Hpre Hi Ht.
  rewrite <- (app_nil_r (resolved test n pre)).
  apply (ends_list fs fuel testlist test n riscv_dv_root
           (pre ++ bad :: post)); [exact Hfs|].
  apply ends_for_each_app; [now apply ends_import_free|].
  apply ends_for_each_stop; [reflexivity|].
  intros w1. exists w1. unfold process_entry. rewrite Hi.
  rewrite bool_decide_eq_false_2 by (intros [v Hv]; discriminate).
  unfold process_test, bind, getitem. rewrite Ht.
  split; [reflexivity|now rewrite app_nil_r].
Qed.

Lemma missing_test_key_stops_witness :
  exists w',
    process_regression_list cyclic_fs 1 "bad.yaml" "all" 0 "/dv" init_world =
      (Raises (KeyError "test"), w') /\
    matched_list w' = [testA].
Proof.
  exact (missing_test_key_stops cyclic_fs 0%nat "bad.yaml" "all" "/dv" 0
           [testA] [testB] nameless init_world
           eq_refl eq_refl eq_refl eq_refl).
Defined.



(** ** The path of an import *)

Lemma prefix_append pat rest : String.prefix pat (pat +:+ rest) = true.
Proof.
  induction pat as [|c pat IH]; simpl; [now destruct rest|].
  destruct (ascii_dec c c); [exact IH|congruence].
Qed.

Lemma replace_all_skip pat repl p rest :
  replace_all pat repl (String.length p) (p +:+ rest) =
  replace_all pat repl 0 rest.
Proof.
  induction p as [|c p IH]; simpl; [now destruct rest|exact IH].
Qed.

Lemma replace_all_prefix c pat repl rest :
  replace_all (String c pat) repl 0 (String c pat +:+ rest) =
  repl +:+ replace_all (String c pat) repl 0 rest.
Proof.
  pose proof (prefix_append (String c pat) rest) as Hp.
  change (String c pat +:+ rest) with (String c (pat +:+ rest)) in *.
  cbn [replace_all]. rewrite Hp.
  replace (String.length (String c pat) - 1)%nat with (String.length pat)
    by (cbn [String.length]; lia).
  now rewrite replace_all_skip.
Qed.

Lemma replace_all_free c pat repl s :
  free_of c s = true -> replace_all (String c pat) repl 0 s = s.
Proof.
  induction s as [|c' s IH]; [reflexivity|]. cbn [free_of].
  intros [Hc Hs]%andb_prop. apply negb_true_iff, Ascii.eqb_neq in Hc.
  cbn [replace_all String.prefix].
  destruct (ascii_dec c c'); [congruence|]. now rewrite (IH Hs).
Qed.

Lemma bind_ret {A} (m : M A) (w : world) : bind m (fun a => ret a) w = m w.
Proof. unfold bind, ret. now destruct (m w) as [[a| | |] w']. Qed.

(** X16: the list of an import is loaded from the path of the node with the
    root directory, a path without backslash, put in for the placeholder: a
    list that holds one import whose path is the placeholder followed by
    [rest] resolves, after the record of its own processing, as the list at
    the root directory followed by [rest] does, and one whose path has no
    ['<'] as the list at that very path does. *)
Theorem import_path_substitution (fs : string -> file) (fuel : nat)
    (testlist test riscv_dv_root rest : string) (n : Z) (imp : entry)
    (w : world) :
  plain_repl riscv_dv_root = true ->
  free_of "<" rest = true ->
  fs testlist = Document [imp] ->
  let w1 :=
    emit (EvLog INFO "Processing regression test list : %s, test: %s"
                [VStr testlist; VStr test]) w in
  (imp !! "import" = Some (VStr ("<riscv_dv_root>" +:+ rest)) ->
   process_regression_list fs (S fuel) testlist test n riscv_dv_root w =
   process_regression_list fs fuel (riscv_dv_root +:+ rest) test n
                           riscv_dv_root w1) /\
  (imp !! "import" = Some (VStr rest) ->
   process_regression_list fs (S fuel) testlist test n riscv_dv_root w =
   process_regression_list fs fuel rest test n riscv_dv_root w1).
Proof.
  intros _ Hfree Hfs w1.
  assert (Hcall : forall path,
             imp !! "import" = Some (VStr path) ->
             process_regression_list fs (S fuel) testlist test n
                                     riscv_dv_root w =
             process_regression_list fs fuel
               (re_sub "<riscv_dv_root>" riscv_dv_root path) test n
               riscv_dv_root w1).
  { intros path He. cbn [process_regression_list].
    unfold bind at 1. unfold logging_info, log.
    unfold bind at 1. unfold read_yaml. rewrite Hfs. unfold ret at 1.
    cbn [for_each].
    rewrite (process_entry_import _ test _ n riscv_dv_root imp path He).
    apply bind_ret. }
  split; intros He; rewrite (Hcall _ He); unfold re_sub.
  - rewrite replace_all_prefix. now rewrite (replace_all_free _ _ _ _ Hfree).
  - now rewrite (replace_all_free _ _ _ _ Hfree).
Qed.

Lemma import_path_substitution_witness :
  process_regression_list only_import_fs 2 "all.yaml" "all" 0 "/dv"
                          init_world =
  process_regression_list only_import_fs 1 "/dv/yaml/base_testlist.yaml"
    "all" 0 "/dv"
    (emit (EvLog INFO "Processing regression test list : %s, test: %s"
                 [VStr "all.yaml"; VStr "all"]) init_world).
Proof.
  exact (proj1 (import_path_substitution only_import_fs 1 "all.yaml" "all"
                  "/dv" "/yaml/base_testlist.yaml" 0 import_base init_world
                  eq_refl eq_refl eq_refl) eq_refl).
Defined.

(** ** What the appended entries look like *)

Lemma apply_override_other_keys n e key :
  key <> "iterations" -> apply_override n e !! key = e !! key.
Proof.
  intros Hkey. unfold apply_override.
  destruct ((0 <? n)%Z && positive_count e); [|reflexivity].
  now rewrite lookup_insert_ne.
Qed.

(** X18: the resolver passes every other field of an entry through: each entry
    appended from a document without imports agrees with a node of the
    document on every key but ['iterations']. *)
Theorem metadata_passes_through (fs : string -> file) (fuel : nat)
    (testlist test : string) (n : Z) (riscv_dv_root : string)
    (doc : list entry) (w : world) :
  fs testlist = Document doc ->
  forallb is_test_node doc = true ->
  exists w' new,
    process_regression_list fs (S fuel) testlist test n riscv_dv_root w =
      (Returns tt, w') /\
    matched_list w' = matched_list w ++ new /\
    Forall (fun e' =>
              exists e, e ∈ doc /\
                forall key, key <> "iterations" -> e' !! key = e !! key)
           new.
Proof.
  intros Hfs Hdoc.
  destruct (ends_list fs fuel testlist test n riscv_dv_root doc (Returns tt)
              (resolved test n doc) Hfs
              (ends_import_free _ test n _ doc Hdoc) w) as (w' & E & Hm).
  exists w', (resolved test n doc). split; [exact E|]. split; [exact Hm|].
  apply Forall_forall. intros e' He'. unfold resolved in He'.
  apply list_elem_of_In, List.filter_In in He' as [He' _].
  apply list_elem_of_In, list_elem_of_fmap in He' as (e & -> & He).
  exists e. split; [exact He|]. intros key Hkey.
  now apply apply_override_other_keys.
Qed.

Lemma metadata_passes_through_witness :
  exists w' new,
    process_regression_list sample_fs 1 "flat.yaml" "all" 9 "/dv"
                            init_world = (Returns tt, w') /\
    matched_list w' = matched_list init_world ++ new /\
    Forall (fun e' =>
              exists e, e ∈ [testA; testD; testB] /\
                forall key, key <> "iterations" -> e' !! key = e !! key)
           new.
Proof.
  exact (metadata_passes_through sample_fs 0%nat "flat.yaml" "all" 9 "/dv"
           [testA; testD; testB] init_world eq_refl eq_refl).
Defined.

(** ** An override that is not positive *)

Lemma for_each_ext {A S} (l : list A) (body1 body2 : S -> A -> M S) :
  (forall s x w, body1 s x w = body2 s x w) ->
  forall s w, for_each l body1 s w = for_each l body2 s w.
Proof.
  intros Hbody. induction l as [|x l IH]; intros s w; [reflexivity|].
  cbn [for_each]. unfold bind. rewrite Hbody.
  destruct (body2 s x w) as [[s'| | |] w']; try reflexivity. apply IH.
Qed.

Lemma bind_ext {A B} (m : M A) (k1 k2 : A -> M B) :
  (forall a w, k1 a w = k2 a w) -> forall w, bind m k1 w = bind m k2 w.
Proof.
  intros Hk w. unfold bind.
  destruct (m w) as [[a| | |] w']; try reflexivity. apply Hk.
Qed.

Lemma process_test_nonpositive test mult_test n e :
  (n <= 0)%Z ->
  process_test test mult_test n e = process_test test mult_test 0 e.
Proof.
  intros Hn. unfold process_test.
  replace (0 <? n)%Z with false by (symmetry; apply Z.ltb_ge; lia).
  reflexivity.
Qed.

(** X19: a negative override does what the override [0] does: the lists are
    resolved with the counts they declare, and the two calls agree in every
    respect, failures included. *)
Theorem nonpositive_override_is_none (fs : string -> file) (n : Z) :
  (n <= 0)%Z ->
  forall fuel testlist test riscv_dv_root w,
    process_regression_list fs fuel testlist test n riscv_dv_root w =
    process_regression_list fs fuel testlist test 0 riscv_dv_root w.
Proof.
  intros Hn. induction fuel as [|fuel IH];
    intros testlist test riscv_dv_root w; [reflexivity|].
  cbn [process_regression_list].
  apply bind_ext. intros _ w1. apply bind_ext. intros doc w2.
  apply for_each_ext. intros _ e w3. unfold process_entry.
  destruct (bool_decide (is_Some (e !! "import")));
    [|now rewrite process_test_nonpositive].
  apply bind_ext. intros v w4. apply bind_ext. intros path w5. apply IH.
Qed.

Lemma nonpositive_override_is_none_witness :
  process_regression_list sample_fs 2 "testlist.yaml" "all" (-3) "/dv"
                          init_world =
  process_regression_list sample_fs 2 "testlist.yaml" "all" 0 "/dv"
                          init_world.
Proof.
  apply (nonpositive_override_is_none sample_fs (-3)).
  vm_compute. discriminate.
Defined.
